(** * Drop-Compliant-Voicemails: a shallow embedding of the detection and
    decision engine (detectors.py, stt.py, llm.py, voicemail_dropper.py,
    utils.py) and proofs of its specified properties.

    Samples, times and durations are modelled as rationals [Q]; wall-clock
    reads ([time.time()]) become explicit time arguments.  The numpy FFT
    and the webrtcvad classifier are floating-point / external library
    code and are taken as parameters of the Sections that use them. *)

From Stdlib Require Import String Ascii.
From Stdlib Require Import QArith Qabs Qminmax Qround List ZArith Bool Lia Lqa.
Import ListNotations.

Open Scope Q_scope.

(** ** Audio arrays *)

(** A decoded numpy array: 1-D (mono) or 2-D (frames x channels). *)
Inductive audio : Type :=
| Mono (xs : list Q)
| Multi (rows : list (list Q)).

(** [len(audio)]: the size of the first axis. *)
Definition audio_len (a : audio) : nat :=
  match a with
  | Mono xs => length xs
  | Multi rows => length rows
  end.

(** [audio[start:stop]] along the first axis. *)
Definition audio_slice (a : audio) (start stop : nat) : audio :=
  match a with
  | Mono xs => Mono (firstn (stop - start) (skipn start xs))
  | Multi rows => Multi (firstn (stop - start) (skipn start rows))
  end.

Definition sumQ (xs : list Q) : Q := fold_left Qplus xs 0.

(** [sum(xs) / len(xs)] *)
Definition average (xs : list Q) : Q :=
  sumQ xs / inject_Z (Z.of_nat (length xs)).

(** [np.mean(audio, axis=1)] *)
Definition mean_axis1 (rows : list (list Q)) : list Q :=
  map average rows.

(** [np.max(np.abs(xs))] (only used on non-empty arrays). *)
Definition max_abs (xs : list Q) : Q :=
  fold_left (fun m x => Qmax m (Qabs x)) xs 0.

Definition Qgtb (x y : Q) : bool := negb (Qle_bool x y).
Definition Qltb (x y : Q) : bool := negb (Qle_bool y x).

(** ** BeepDetector (detectors.py) *)

Record BeepDetector : Type := mkBeep {
  beep_detected : bool;
  last_beep_time : option Q;
  confidence : Q;
  recent_beep_detections : list Q;
  recent_energies : list Q
}.

(** [self.min_beep_duration = 0.3] and [self.min_beep_count = 2]: set in
    [__init__] and never reassigned. *)
Definition min_beep_duration : Q := 3 # 10.
Definition min_beep_count : nat := 2.

Definition beep_init : BeepDetector := mkBeep false None 0 [] [].

Definition beep_reset (_ : BeepDetector) : BeepDetector := mkBeep false None 0 [] [].

Module Beep.
Section BeepDetection.

(** [spectrum sr x] = [(energy, total_energy)]: the summed FFT magnitudes
    of the Hann-windowed chunk inside [900, 1100] Hz and over all bins
    (numpy floating-point code, lines 32-39). *)
Variable spectrum : Z -> list Q -> Q * Q.

(** [process_chunk(audio_chunk, sample_rate)] at wall-clock time [now].
    The three [time.time()] reads of one call are one instant. *)
Definition process_chunk (d : BeepDetector) (chunk : audio) (sr : Z) (now : Q)
  : BeepDetector * bool :=
  if Nat.eqb (audio_len chunk) 0 then (d, false) else
  let x := match chunk with Mono xs => xs | Multi rows => mean_axis1 rows end in
  let n := length x in
  if Nat.ltb n 1024 then (d, false) else
  let '(energy, total_energy) := spectrum sr x in
  if Qgtb total_energy 0 && Qgtb (energy / total_energy) (8 # 100)
     && Qgtb (max_abs x) (1 # 10) then
    let re0 := recent_energies d ++ [energy / total_energy] in
    let re := if Nat.ltb 5 (length re0) then tl re0 else re0 in
    let avg_energy := average re in
    if Qgtb avg_energy (8 # 100) then
      let rb := recent_beep_detections d ++ [now] in
      if Nat.leb min_beep_count (length rb) then
        if Qltb (now - hd now rb) min_beep_duration then
          (mkBeep true (Some now) (Qmin 1 avg_energy) [] re, true)
        else (mkBeep (beep_detected d) (last_beep_time d) (confidence d) rb re, false)
      else (mkBeep (beep_detected d) (last_beep_time d) (confidence d) rb re, false)
    else (mkBeep (beep_detected d) (last_beep_time d) (confidence d)
                 (recent_beep_detections d) re, false)
  else (d, false).

End BeepDetection.
End Beep.

(** [for chunk, t in calls: detector.process_chunk(chunk, sr)] *)
Fixpoint beep_run (spectrum : Z -> list Q -> Q * Q) (sr : Z) (d : BeepDetector)
  (calls : list (audio * Q)) : BeepDetector * list bool :=
  match calls with
  | [] => (d, [])
  | (c, t) :: rest =>
      let '(d1, b) := Beep.process_chunk spectrum d c sr t in
      let '(d2, bs) := beep_run spectrum sr d1 rest in
      (d2, b :: bs)
  end.

(** ** SilenceDetector (detectors.py) *)

Record SilenceDetector : Type := mkSilence {
  sample_rate : Z;
  silence_start : option Q;
  last_speech_time : Q;
  silence_duration : Q;
  speech_active : bool;
  consecutive_silence : nat;
  consecutive_speech : nat
}.

(** [__init__(sample_rate)] at wall-clock time [now]. *)
Definition silence_init (sr : Z) (now : Q) : SilenceDetector :=
  mkSilence sr None now 0 false 0 0.

(** [reset()] at wall-clock time [now]. *)
Definition silence_reset (d : SilenceDetector) (now : Q) : SilenceDetector :=
  mkSilence (sample_rate d) None now 0 false 0 0.

(** [(x * 32767).astype(np.int16)]: truncation toward zero, then int16
    wrap-around. *)
Definition to_int16 (x : Q) : Z :=
  let z := Z.quot (Qnum (x * 32767)) (Zpos (Qden (x * 32767))) in
  (z + 32768) mod 65536 - 32768.

(** [int(self.sample_rate * 0.03)] *)
Definition frame_size (sr : Z) : nat := Z.to_nat ((sr * 3) / 100).

(** Python truthiness of the float [self.silence_start]. *)
Definition truthy_time (t : option Q) : option Q :=
  match t with
  | Some st => if Qeq_bool st 0 then None else Some st
  | None => None
  end.

(** Lines 100-117: the 2-speech / 3-silence hysteresis. *)
Definition silence_update (d : SilenceDetector) (is_speech : bool) (current_time : Q)
  : SilenceDetector :=
  if is_speech then
    let cs := S (consecutive_speech d) in
    if Nat.leb 2 cs then
      mkSilence (sample_rate d) None current_time 0 true 0 cs
    else
      mkSilence (sample_rate d) (silence_start d) (last_speech_time d)
                (silence_duration d) (speech_active d) 0 cs
  else
    let cl := S (consecutive_silence d) in
    if Nat.leb 3 cl then
      if speech_active d then
        mkSilence (sample_rate d) (Some current_time) (last_speech_time d)
                  (silence_duration d) false cl 0
      else match truthy_time (silence_start d) with
           | Some st =>
               mkSilence (sample_rate d) (silence_start d) (last_speech_time d)
                         (current_time - st) (speech_active d) cl 0
           | None =>
               mkSilence (sample_rate d) (silence_start d) (last_speech_time d)
                         (silence_duration d) (speech_active d) cl 0
           end
    else
      mkSilence (sample_rate d) (silence_start d) (last_speech_time d)
                (silence_duration d) (speech_active d) cl 0.

Module Silence.
Section SilenceDetection.

(** [self.vad.is_speech(frame_bytes, sample_rate)]: the webrtcvad classifier;
    [None] when it raises. *)
Variable vad : Z -> list Z -> option bool.

(** Lines 84-98: the classification of a non-empty chunk. *)
Definition classify (sr : Z) (chunk : audio) : bool :=
  let x := match chunk with Mono xs => xs | Multi rows => map (hd 0) rows end in
  let max_val := max_abs x in
  let x := if Qgtb max_val 0 then map (fun v => v / max_val) x else x in
  let audio_int16 := map to_int16 x in
  let fs := frame_size sr in
  if Nat.leb fs (length audio_int16) then
    match vad sr (firstn fs audio_int16) with
    | Some b => b
    | None => false
    end
  else false.

(** [process_chunk(audio_chunk)] at wall-clock time [now]; returns the new
    state and [self.silence_duration]. *)
Definition process_chunk (d : SilenceDetector) (chunk : audio) (now : Q)
  : SilenceDetector * Q :=
  if Nat.eqb (audio_len chunk) 0 then (d, silence_duration d) else
  let d' := silence_update d (classify (sample_rate d) chunk) now in
  (d', silence_duration d').

End SilenceDetection.
End Silence.

(** [for chunk, t in calls: detector.process_chunk(chunk)] *)
Fixpoint silence_run (vad : Z -> list Z -> option bool) (d : SilenceDetector)
  (calls : list (audio * Q)) : SilenceDetector :=
  match calls with
  | [] => d
  | (c, t) :: rest => silence_run vad (fst (Silence.process_chunk vad d c t)) rest
  end.

(** ** insert_voice_mail_at_drop (utils.py) *)

(** Python's [round] on a float: nearest integer, ties to even. *)
Definition round_half_even (q : Q) : Z :=
  let f := Qfloor q in
  let r := q - inject_Z f in
  if Qltb r (1 # 2) then f
  else if Qltb (1 # 2) r then (f + 1)%Z
  else if Z.even f then f else (f + 1)%Z.

(** Lines 354-355: [idx = int(round(drop_time * sr_orig)) if drop_time >= 0
    else 0; idx = max(0, min(idx, orig.shape[0]))]. *)
Definition insertion_index (drop_time : Q) (sr_orig : Z) (n : nat) : nat :=
  let idx := if Qle_bool 0 drop_time then round_half_even (drop_time * inject_Z sr_orig)
             else 0%Z in
  Z.to_nat (Z.max 0 (Z.min idx (Z.of_nat n))).

(** [np.concatenate([a, b, c], axis=0)]; numpy raises on mixed dimensions. *)
Definition concatenate3 (a b c : audio) : option audio :=
  match a, b, c with
  | Mono x, Mono y, Mono z => Some (Mono (x ++ y ++ z))
  | Multi x, Multi y, Multi z => Some (Multi (x ++ y ++ z))
  | _, _, _ => None
  end.

Definition same_ndim (a b : audio) : bool :=
  match a, b with
  | Mono _, Mono _ | Multi _, Multi _ => true
  | _, _ => false
  end.

Definition all_samples (a : audio) : list Q :=
  match a with Mono xs => xs | Multi rows => concat rows end.

Definition audio_map (f : Q -> Q) (a : audio) : audio :=
  match a with Mono xs => Mono (map f xs) | Multi rows => Multi (map (map f) rows) end.

(** [write_audio]: the samples handed to [sf.write], rescaled by the peak
    when it exceeds 1.0. *)
Definition write_audio_samples (a : audio) : audio :=
  let max_val := max_abs (all_samples a) in
  if Qgtb max_val 1 then audio_map (fun v => v / max_val) a else a.

(** Lines 354-359 of [insert_voice_mail_at_drop], for a voice mail [vm]
    already at the original's sample rate and channel layout (the
    resampling branch and [ensure_channels] have run); returns the samples
    written to [output_path]. *)
Definition insert_at_drop (orig vm : audio) (sr_orig : Z) (drop_time : Q) : option audio :=
  let idx := insertion_index drop_time sr_orig (audio_len orig) in
  match concatenate3 (audio_slice orig 0 idx) vm (audio_slice orig idx (audio_len orig)) with
  | Some new_audio => Some (write_audio_samples new_audio)
  | None => None
  end.

(** ** LLMGreetingAnalyzer._heuristic_analysis (llm.py) *)

(** [str.lower()] on ASCII text. *)
Definition lower_ascii (c : ascii) : ascii :=
  let n := nat_of_ascii c in
  if (Nat.leb 65 n && Nat.leb n 90)%bool then ascii_of_nat (n + 32) else c.

Fixpoint lower (s : string) : string :=
  match s with
  | EmptyString => EmptyString
  | String c rest => String (lower_ascii c) (lower rest)
  end.

(** Python's [needle in haystack] on strings. *)
Fixpoint contains (needle hay : string) : bool :=
  if String.prefix needle hay then true
  else match hay with
       | EmptyString => false
       | String _ rest => contains needle rest
       end.

Definition complete_indicators : list string :=
  ["leave a message"; "after the beep"; "after the tone"; "call me back";
   "thank you"; "goodbye"; "leave your name"; "i'll call you";
   "message after"; "beep and then"]%string.

Definition incomplete_indicators : list string :=
  ["hi this is"; "hello this is"; "you've reached"; "i am"; "my name is";
   "i'm not available"; "sorry i missed"]%string.

(** [sum(1 for indicator in indicators if indicator in text_lower)] *)
Definition indicator_score (indicators : list string) (text_lower : string) : nat :=
  length (filter (fun i => contains i text_lower) indicators).

Definition heuristic_analysis (text : string) : bool :=
  let text_lower := lower text in
  let complete_score := indicator_score complete_indicators text_lower in
  let incomplete_score := indicator_score incomplete_indicators text_lower in
  if (Nat.ltb incomplete_score complete_score
      || (Nat.ltb 0 complete_score && Nat.ltb 10 (String.length text)))%bool
  then true else false.

(** ** VoicemailDropper (voicemail_dropper.py) *)

(** The collaborators of the orchestrator: floating-point and library code
    ([numpy.fft], [webrtcvad], [soundfile]), the wall clock, and the
    [SpeechToTextProcessor] with the [LLMGreetingAnalyzer] it owns, whose
    state has type [TS]. *)
Record Env (TS : Type) : Type := mkEnv {
  spectrum : Z -> list Q -> Q * Q;
  vad : Z -> list Z -> option bool;
  (** [sf.read(audio_file)]; [None] when it raises (or when constructing
      the [SilenceDetector] raises). *)
  decode : string -> option (audio * Z);
  (** [stt_processor.reset()] at the given time. *)
  stt_reset : TS -> Q -> TS;
  (** [stt_processor.process_chunk(chunk, sample_rate, elapsed, total)] at
      the given time. *)
  stt_process_chunk : TS -> audio -> Z -> Q -> Q -> Q -> TS;
  stt_context : TS -> string;
  (** [stt_processor.llm_analyzer.is_greeting_complete(text)] *)
  is_greeting_complete : TS -> string -> Q -> TS * bool;
  (** [insert_voice_mail_at_drop(filepath, voice_mail_path, timestamp,
      out_path)] returns normally. *)
  insert_ok : string -> Q -> bool
}.
Arguments spectrum {TS}. Arguments vad {TS}. Arguments decode {TS}.
Arguments stt_reset {TS}. Arguments stt_process_chunk {TS}.
Arguments stt_context {TS}. Arguments is_greeting_complete {TS}.
Arguments insert_ok {TS}.

(** The wall-clock reads of one [process_audio_stream] call: at its start,
    when the [SilenceDetector] is built, and during the chunk with index
    [i]. *)
Record Clock : Type := mkClock {
  t_start : Q;
  t_load : Q;
  chunk_time : nat -> Q
}.

(** The exceptions [process_audio_stream] can raise. *)
Inductive py_exc : Type :=
| ZeroDivisionError.

(** The fields of [VoicemailDropper] the chunk loop updates. *)
Record LoopState (TS : Type) : Type := mkLoop {
  ls_beep : BeepDetector;
  ls_silence : SilenceDetector;
  ls_stt : TS;
  ls_triggered : bool;
  ls_trigger_time : option Q;
  ls_trigger_reason : option string;
  ls_processed : Q
}.
Arguments mkLoop {TS}.
Arguments ls_beep {TS}. Arguments ls_silence {TS}. Arguments ls_stt {TS}.
Arguments ls_triggered {TS}. Arguments ls_trigger_time {TS}.
Arguments ls_trigger_reason {TS}. Arguments ls_processed {TS}.

(** [chunk_size = int(sample_rate * 0.1)] *)
Definition chunk_size (sr : Z) : nat := Z.to_nat (sr / 10).

(** [for i in range(len(audio) // chunk_size): audio[i*cs : i*cs + cs]] *)
Definition indexed_chunks (a : audio) (cs : nat) : list (nat * audio) :=
  map (fun i => (i, audio_slice a (i * cs) (i * cs + cs))) (seq 0 (audio_len a / cs)).

Section Engine.
Context {TS : Type} (E : Env TS) (clk : Clock).

(** [_trigger_drop(reason, timestamp)] *)
Definition trigger_drop (st : LoopState TS) (reason : string) (timestamp : Q) : LoopState TS :=
  mkLoop (ls_beep st) (ls_silence st) (ls_stt st) true (Some timestamp) (Some reason)
         (ls_processed st).

(** Lines 182-211: the chunk loop; a trigger breaks out of it. *)
Fixpoint chunk_loop (sr : Z) (total_duration : Q) (chunks : list (nat * audio))
  (st : LoopState TS) : LoopState TS :=
  match chunks with
  | [] => st
  | (i, chunk) :: rest =>
      if Nat.eqb (audio_len chunk) 0 then chunk_loop sr total_duration rest st else
      let processed_duration := inject_Z (Z.of_nat (i + 1)) * (1 # 10) in
      let now := chunk_time clk i in
      let '(bd, beep_detected) :=
        Beep.process_chunk (spectrum E) (ls_beep st) chunk sr now in
      let '(sd, silence_duration) :=
        Silence.process_chunk (vad E) (ls_silence st) chunk now in
      let silence_detected := Qle_bool (6 # 10) silence_duration in
      let ts := stt_process_chunk E (ls_stt st) chunk sr processed_duration total_duration now in
      let current_context := stt_context E ts in
      let st1 := mkLoop bd sd ts (ls_triggered st) (ls_trigger_time st)
                        (ls_trigger_reason st) processed_duration in
      if negb (ls_triggered st1) then
        if beep_detected then trigger_drop st1 "beep_detected" processed_duration
        else if silence_detected then
          if (negb (String.eqb current_context "") &&
              Nat.ltb 10 (String.length current_context))%bool then
            let '(ts2, complete) := is_greeting_complete E ts current_context now in
            let st2 := mkLoop bd sd ts2 (ls_triggered st1) (ls_trigger_time st1)
                              (ls_trigger_reason st1) processed_duration in
            if complete then
              trigger_drop st2 "silence_and_complete_greeting" processed_duration
            else chunk_loop sr total_duration rest st2
          else chunk_loop sr total_duration rest st1
        else chunk_loop sr total_duration rest st1
      else chunk_loop sr total_duration rest st1
  end.

(** Lines 212-216: the end-of-stream fallback. *)
Definition finish (total_duration : Q) (st : LoopState TS) : LoopState TS :=
  if negb (ls_triggered st) then
    if Qltb (t_start clk + 1) (last_speech_time (ls_silence st)) then
      trigger_drop st "end_of_speech" (total_duration * (9 # 10))
    else trigger_drop st "end_of_audio" (total_duration * (9 # 10))
  else st.

(** [process_audio_stream(audio_file)]: returns the detectors it leaves
    behind and either an exception or [(trigger_time, trigger_reason)]. *)
Definition process_audio_stream (bd : BeepDetector) (ts : TS) (audio_file : string)
  : BeepDetector * TS * (py_exc + (option Q * option string)) :=
  let bd := beep_reset bd in
  let ts := stt_reset E ts (t_start clk) in
  match decode E audio_file with
  | None => (bd, ts, inr (None, None))
  | Some (audio, sample_rate) =>
      let total_duration := inject_Z (Z.of_nat (audio_len audio)) / inject_Z sample_rate in
      let sd := silence_init sample_rate (t_load clk) in
      let cs := chunk_size sample_rate in
      if Nat.eqb cs 0 then (bd, ts, inl ZeroDivisionError) else
      let st := chunk_loop sample_rate total_duration (indexed_chunks audio cs)
                  (mkLoop bd sd ts false None None 0) in
      let st := finish total_duration st in
      (ls_beep st, ls_stt st, inr (ls_trigger_time st, ls_trigger_reason st))
  end.

End Engine.

(** [process_directory]'s per-file result record. *)
Record FileResult : Type := mkResult {
  r_timestamp : option Q;
  r_reason : option string;
  r_status : string;
  r_output_file : option string
}.

(** [os.path.join] *)
Definition path_join (a b : string) : string := (a ++ "/" ++ b)%string.

(** [os.path.splitext(filename)[0]] for a name ending in [.wav]. *)
Definition wav_base (filename : string) : string :=
  substring 0 (String.length filename - 4) filename.

Section Directory.
Context {TS : Type} (E : Env TS) (clocks : string -> Clock)
        (directory output_dir : string).

(** Lines 240-260: the loop over [sorted(audio_files)]; the dict [results]
    is kept as an association list in insertion order.  An exception raised
    by [process_audio_stream] propagates out of [process_directory]. *)
Fixpoint process_files (bd : BeepDetector) (ts : TS) (files : list string)
  (results : list (string * FileResult)) : py_exc + list (string * FileResult) :=
  match files with
  | [] => inr results
  | filename :: rest =>
      let filepath := path_join directory filename in
      let '(bd', ts', r) := process_audio_stream E (clocks filename) bd ts filepath in
      match r with
      | inl e => inl e
      | inr (Some timestamp, reason) =>
          let out_path := path_join output_dir (wav_base filename ++ "_dropped.wav") in
          let status := if insert_ok E filepath timestamp then "SUCCESS"%string
                        else "FAILED"%string in
          process_files bd' ts' rest
            (results ++ [(filename, mkResult (Some timestamp) reason status (Some out_path))])
      | inr (None, reason) =>
          process_files bd' ts' rest
            (results ++ [(filename, mkResult None reason "FAILED" None)])
      end
  end.

End Directory.

(** The frames of an array, one list of channel values per frame. *)
Definition frames_of (a : audio) : list (list Q) :=
  match a with Mono xs => map (fun x => [x]) xs | Multi rows => rows end.

(** A concrete set of collaborators: a tone with a band-energy ratio of
    0.5 in every chunk, a classifier that never hears speech, one readable
    file ["calls/tone.wav"] of 4000 samples at 20000 Hz, and a transcript
    that stays empty. *)
Definition tone_env : Env unit :=
  mkEnv unit (fun _ _ => (1, 2)) (fun _ _ => Some false)
    (fun f => if String.eqb f "calls/tone.wav" then Some (Mono (repeat (1 # 2) 4000), 20000%Z)
              else None)
    (fun _ _ => tt) (fun _ _ _ _ _ _ => tt) (fun _ => ""%string)
    (fun _ _ _ => (tt, false)) (fun _ _ => true).

(** The same readable file with no energy in the beep band: no chunk
    qualifies, no speech is heard, so no chunk triggers. *)
Definition quiet_env : Env unit :=
  mkEnv unit (fun _ _ => (0, 1)) (fun _ _ => Some false)
    (fun f => if String.eqb f "calls/tone.wav" then Some (Mono (repeat (1 # 2) 4000), 20000%Z)
              else None)
    (fun _ _ => tt) (fun _ _ _ _ _ _ => tt) (fun _ => ""%string)
    (fun _ _ _ => (tt, false)) (fun _ _ => true).

(** A loop state whose BeepDetector holds one candidate at time 0. *)
Definition armed_state : LoopState unit :=
  mkLoop (mkBeep false None 0 [0] [1 # 2]) (silence_init 20000 0) tt false None None (1 # 10).

Definition tenth_clock : Clock := mkClock 0 0 (fun i => inject_Z (Z.of_nat i) * (1 # 10)).

(** The state invariant of [SilenceDetector] at wall-clock time [t]: the
    duration is nonzero only while silent with a silence start, it is zero
    while speech is active or no silence start exists, and it never exceeds
    the time elapsed since the silence start. *)
Definition silence_inv (t : Q) (d : SilenceDetector) : Prop :=
  (~ silence_duration d == 0 -> speech_active d = false /\ silence_start d <> None) /\
  (speech_active d = true -> silence_duration d == 0) /\
  (silence_start d = None -> silence_duration d == 0) /\
  (forall st, silence_start d = Some st ->
     st <= t /\ 0 <= silence_duration d /\ silence_duration d <= t - st).

(** ** String slicing helpers *)

(** [s[:n]] *)
Fixpoint str_take (n : nat) (s : string) : string :=
  match n, s with
  | O, _ => EmptyString
  | S n', String c rest => String c (str_take n' rest)
  | S _, EmptyString => EmptyString
  end.

(** [s[n:]] *)
Fixpoint str_drop (n : nat) (s : string) : string :=
  match n, s with
  | O, _ => s
  | S n', String _ rest => str_drop n' rest
  | S _, EmptyString => EmptyString
  end.

(** [s[a:b]] for [0 <= a <= b] *)
Definition py_slice (s : string) (a b : nat) : string := str_take (b - a) (str_drop a s).

(** [s[-n:]] for [n > 0] *)
Definition py_tail (n : nat) (s : string) : string := str_drop (String.length s - n) s.

(** [int(q)]: truncation toward zero. *)
Definition py_int (q : Q) : Z := Z.quot (Qnum q) (Zpos (Qden q)).

(** ** SimulatedDeepgramTranscriber (stt.py) *)

Definition voicemail_phrases : list string :=
  ["Hi you've reached Mike Rodriguez";
   "Hello this is Mike";
   "You've reached Mike Rodriguez";
   "Hi you've reached Mike Rodriguez I can't take your call right now";
   "Hello this is Mike I'm not available at the moment";
   "You've reached the voicemail of Mike Rodriguez";
   "Hi you've reached Mike Rodriguez I can't take your call right now please leave your name and number after the beep";
   "Hello this is Mike I'm not available right now please leave a message after the tone and I'll get back to you";
   "You've reached Mike Rodriguez I can't come to the phone right now please leave your name number and a brief message after the beep"]%string.

Record Transcriber : Type := mkTranscriber {
  current_phrase : option string;
  phrase_position : nat;
  last_chunk_time : Q
}.

(** [self.chunk_interval = 0.4] (set in [__init__], never reassigned). *)
Definition chunk_interval : Q := 2 # 5.

Definition transcriber_init : Transcriber := mkTranscriber None 0 0.
Definition transcriber_reset (_ : Transcriber) : Transcriber := mkTranscriber None 0 0.

(** [self.voicemail_phrases[i]]; [None] is an IndexError. *)
Definition phrase_at (i : Z) : option string :=
  let n := Z.of_nat (length voicemail_phrases) in
  if (0 <=? i)%Z then nth_error voicemail_phrases (Z.to_nat i)
  else if (- n <=? i)%Z then nth_error voicemail_phrases (Z.to_nat (n + i))
  else None.

Definition trailer_fragment : string := " please leave a message after the beep".

(** [simulate_transcription(audio_duration, elapsed_time)] at wall-clock
    time [now]; [None] when it raises (an out-of-range phrase index). *)
Definition simulate_transcription (tr : Transcriber) (audio_duration elapsed_time now : Q)
  : option (Transcriber * option string) :=
  if Qltb (now - last_chunk_time tr) chunk_interval then Some (tr, None) else
  let phrase_index := Z.min (Z.of_nat (length voicemail_phrases) - 1)
                            (py_int (audio_duration / 5)) in
  let phrase := match current_phrase tr with
                | Some p => Some p
                | None => phrase_at phrase_index
                end in
  match phrase with
  | None => None
  | Some phrase =>
      let phrase_length := String.length phrase in
      let progress_ratio := Qmin 1 (elapsed_time / Qmax 3 (audio_duration * (7 # 10))) in
      let new_position := py_int (inject_Z (Z.of_nat phrase_length) * progress_ratio) in
      if (Z.of_nat (phrase_position tr) <? new_position)%Z then
        let np := Z.to_nat new_position in
        Some (mkTranscriber (Some phrase) np now,
              Some (py_slice phrase (phrase_position tr) np))
      else
        let tr' := mkTranscriber (Some phrase) (phrase_position tr) now in
        if Qltb (audio_duration * (8 # 10)) elapsed_time then
          if (negb (contains "after the beep" (lower phrase))
              && negb (contains "message" (lower phrase)))%bool
          then Some (tr', Some trailer_fragment)
          else Some (tr', None)
        else Some (tr', None)
  end.

(** ** SpeechToTextProcessor (stt.py) *)

Record SttBuffers : Type := mkStt {
  transcript : string;
  sentence_buffer : string;
  last_transcription_time : Q;
  transcriber : Transcriber;
  stt_audio_duration : Q
}.

(** [process_chunk(audio_chunk, sample_rate, elapsed_time, total_duration)]
    at time [now] (the chunk and sample rate are not used by the code);
    [None] when the transcriber raises. *)
Definition stt_process (st : SttBuffers) (elapsed_time total_duration now : Q)
  : option (SttBuffers * bool) :=
  match simulate_transcription (transcriber st) total_duration elapsed_time now with
  | None => None
  | Some (tr, new_text) =>
      let st1 := mkStt (transcript st) (sentence_buffer st) (last_transcription_time st)
                       tr total_duration in
      match new_text with
      | Some t =>
          if String.eqb t "" then Some (st1, false) else
          let buf := (sentence_buffer st ++ t)%string in
          let buf := if Nat.ltb 200 (String.length buf) then py_tail 200 buf else buf in
          Some (mkStt (transcript st ++ t) buf (last_transcription_time st) tr total_duration,
                true)
      | None => Some (st1, false)
      end
  end.

(** [get_current_context()] *)
Definition get_current_context (st : SttBuffers) : string :=
  if Nat.ltb 10 (String.length (sentence_buffer st)) then sentence_buffer st
  else if String.eqb (transcript st) "" then ""%string
  else py_tail 200 (transcript st).

(** [reset()] at time [now] (the analyzer is rebuilt separately). *)
Definition stt_reset_buffers (st : SttBuffers) (now : Q) : SttBuffers :=
  mkStt "" "" now (transcriber_reset (transcriber st)) (stt_audio_duration st).

(** ** LLMGreetingAnalyzer (llm.py) *)

(** [str.isspace()] on ASCII characters: space, [\t \n \v \f \r] and the
    separators [\x1c]-[\x1f]. *)
Definition is_space (c : ascii) : bool :=
  let n := nat_of_ascii c in
  (Nat.eqb n 32 || (Nat.leb 9 n && Nat.leb n 13) || (Nat.leb 28 n && Nat.leb n 31))%bool.

Fixpoint lstrip (s : string) : string :=
  match s with
  | EmptyString => EmptyString
  | String c rest => if is_space c then lstrip rest else s
  end.

Fixpoint rstrip (s : string) : string :=
  match s with
  | EmptyString => EmptyString
  | String c rest =>
      let r := rstrip rest in
      if (is_space c && String.eqb r "")%bool then EmptyString else String c r
  end.

(** [str.strip()] *)
Definition strip (s : string) : string := rstrip (lstrip s).

(** [str.upper()] on ASCII text. *)
Definition upper_ascii (c : ascii) : ascii :=
  let n := nat_of_ascii c in
  if (Nat.leb 97 n && Nat.leb n 122)%bool then ascii_of_nat (n - 32) else c.

Fixpoint upper (s : string) : string :=
  match s with
  | EmptyString => EmptyString
  | String c rest => String (upper_ascii c) (upper rest)
  end.

(** A value of [self.cache]. *)
Record CacheEntry : Type := mkEntry {
  is_complete : bool;
  raw_result : string;
  timestamp : Q
}.

Record Analyzer : Type := mkAnalyzer {
  (** whether [self.client] is set (truthy) *)
  client : bool;
  last_call_time : Q;
  (** the dict [self.cache]; a later binding shadows an earlier one *)
  cache : list (string * CacheEntry);
  rate_limit : Q
}.

(** [LLMGreetingAnalyzer(github_token)] with the default [rate_limit=2.0];
    [has_client] says whether the client could be built. *)
Definition analyzer_init (has_client : bool) : Analyzer := mkAnalyzer has_client 0 [] 2.

(** [key in self.cache] and [self.cache[key]] *)
Fixpoint cache_lookup (key : string) (c : list (string * CacheEntry)) : option CacheEntry :=
  match c with
  | [] => None
  | (k, e) :: rest => if String.eqb k key then Some e else cache_lookup key rest
  end.

(** [cache_key = text.strip().lower()[:100]] *)
Definition analyzer_cache_key (text : string) : string := str_take 100 (lower (strip text)).

(** [analyze_last_sentence(text)].  [llm text] is the reply content of
    [client.chat.completions.create] for the prompt built from [text],
    [None] when the call (or reading its reply) raises.  [now] is the
    wall-clock time on entry; [time.sleep] lasts exactly [wait_time], so
    the time after it is [last_call_time + rate_limit] when the call came
    too early; [t_reply] is the time read once the reply is in. *)
Definition analyze_last_sentence (llm : string -> option string) (an : Analyzer)
  (text : string) (now t_reply : Q) : Analyzer * (bool * string) :=
  let cache_key := analyzer_cache_key text in
  let cached := match cache_lookup cache_key (cache an) with
                | Some e => if Qltb (now - timestamp e) 60 then Some e else None
                | None => None
                end in
  match cached with
  | Some e => (an, (is_complete e, raw_result e))
  | None =>
      let t_call := if Qltb (now - last_call_time an) (rate_limit an)
                    then last_call_time an + rate_limit an else now in
      if negb (client an) then (an, (heuristic_analysis text, "HEURISTIC"%string)) else
      let an1 := mkAnalyzer (client an) t_call (cache an) (rate_limit an) in
      match llm text with
      | None => (an1, (heuristic_analysis text, "HEURISTIC_FALLBACK"%string))
      | Some content =>
          let result := upper (strip content) in
          let c := String.eqb result "COMPLETE" in
          (mkAnalyzer (client an) t_call
             ((cache_key, mkEntry c result t_reply) :: cache an) (rate_limit an),
           (c, result))
      end
  end.

(** [is_greeting_complete(text)] *)
Definition is_greeting_complete_llm (llm : string -> option string) (an : Analyzer)
  (text : string) (now t_reply : Q) : Analyzer * bool :=
  if (String.eqb text "" || Nat.ltb (String.length (strip text)) 5)%bool then (an, false)
  else let '(an', (c, _)) := analyze_last_sentence llm an (strip text) now t_reply in
       (an', c).

(** ** ensure_channels and the resampling step (utils.py) *)

(** [np.stack([x, x], axis=1)] *)
Definition stack2 (xs : list Q) : list (list Q) := map (fun x => [x; x]) xs.

(** [audio.shape[1]] of a 2-D array, read off its first frame. *)
Definition ncols (rows : list (list Q)) : nat :=
  match rows with r :: _ => length r | [] => 0 end.

(** [ensure_channels(audio, target_channels)] *)
Definition ensure_channels (a : audio) (target_channels : Z) : audio :=
  match a with
  | Mono xs =>
      if (target_channels =? 1)%Z then a
      else if (target_channels =? 2)%Z then Multi (stack2 xs)
      else let mono := xs in
           if (target_channels =? 1)%Z then Mono mono else Multi (stack2 mono)
  | Multi rows =>
      if (target_channels =? 1)%Z then Mono (mean_axis1 rows)
      else if (Z.of_nat (ncols rows) =? target_channels)%Z then a
      else let mono := mean_axis1 rows in
           if (target_channels =? 1)%Z then Mono mono else Multi (stack2 mono)
  end.

(** [np.linspace(0, 1, num)] *)
Definition linspace (num : nat) : list Q :=
  match num with
  | O => []
  | S O => [0]
  | S k => map (fun i => inject_Z (Z.of_nat i) / inject_Z (Z.of_nat k)) (seq 0 (S k))
  end.

(** [np.interp] at one point [x >= xa], where [(xa, fa)] is the last
    sample point passed: linear between the two sample points around [x],
    the last value from the last sample point on. *)
Fixpoint interp_seg (x xa fa : Q) (xp fp : list Q) : Q :=
  match xp, fp with
  | xb :: xp', fb :: fp' =>
      if Qltb x xb then (fb - fa) / (xb - xa) * (x - xa) + fa
      else interp_seg x xb fb xp' fp'
  | _, _ => fa
  end.

(** [np.interp(x, xp, fp)]; [None] is the ValueError raised for an empty
    [xp]. *)
Definition interp (xs xp fp : list Q) : option (list Q) :=
  match xp, fp with
  | xa :: xp', fa :: fp' =>
      Some (map (fun x => if Qltb x xa then fa else interp_seg x xa fa xp' fp') xs)
  | _, _ => None
  end.

(** [int(math.ceil(vm_len * (sr_orig / sr_vm)))] *)
Definition resampled_len (vm_len : nat) (sr_vm sr_orig : Z) : nat :=
  Z.to_nat (Qceiling (inject_Z (Z.of_nat vm_len) * (inject_Z sr_orig / inject_Z sr_vm))).

(** One channel: [np.interp(np.linspace(0, 1, new_len),
    np.linspace(0, 1, vm_len), ch)]. *)
Definition resample_channel (ch : list Q) (new_len : nat) : option (list Q) :=
  interp (linspace new_len) (linspace (length ch)) ch.

(** [vm[:, c]] *)
Definition column (rows : list (list Q)) (c : nat) : list Q := map (fun r => nth c r 0) rows.

(** [np.stack(channels, axis=1)] for channels of length [n]; numpy raises
    on an empty list of channels. *)
Definition stack_columns (chs : list (list Q)) (n : nat) : option (list (list Q)) :=
  match chs with
  | [] => None
  | _ => Some (map (fun j => map (fun ch => nth j ch 0) chs) (seq 0 n))
  end.

Fixpoint all_some {A : Type} (xs : list (option A)) : option (list A) :=
  match xs with
  | [] => Some []
  | Some x :: rest => option_map (cons x) (all_some rest)
  | None :: _ => None
  end.

(** Lines 73-89 of [insert_voice_mail_at_drop]: the voice mail brought to
    the original's sample rate ([float32] rounding is not modelled);
    [None] when numpy raises. *)
Definition resample (vm : audio) (sr_vm sr_orig : Z) : option audio :=
  if negb (sr_vm =? sr_orig)%Z then
    let vm_len := audio_len vm in
    let new_len := resampled_len vm_len sr_vm sr_orig in
    match vm with
    | Mono xs => option_map Mono (resample_channel xs new_len)
    | Multi rows =>
        match all_some (map (fun c => resample_channel (column rows c) new_len)
                            (seq 0 (ncols rows))) with
        | Some channels => option_map Multi (stack_columns channels new_len)
        | None => None
        end
    end
  else Some vm.

(** The invariant of [SimulatedDeepgramTranscriber]: the position stays
    inside the current phrase, and is 0 while no phrase is chosen. *)
Definition transcriber_inv (tr : Transcriber) : Prop :=
  match current_phrase tr with
  | Some p => (phrase_position tr <= String.length p)%nat
  | None => phrase_position tr = 0%nat
  end.

(** The buffer invariant of [SpeechToTextProcessor]: the sentence buffer
    holds at most 200 characters and is a suffix of the transcript. *)
Definition stt_inv (st : SttBuffers) : Prop :=
  (String.length (sentence_buffer st) <= 200)%nat /\
  exists p, transcript st = (p ++ sentence_buffer st)%string.

(** ** Proofs *)

Lemma Qltb_iff (x y : Q) : Qltb x y = true <-> x < y.
Proof.
  unfold Qltb. rewrite negb_true_iff.
  split; intro H.
  - apply Qnot_le_lt. intro H'. apply Qle_bool_iff in H'. congruence.
  - destruct (Qle_bool y x) eqn:E; [|reflexivity].
    apply Qle_bool_iff in E. exfalso. apply (Qlt_not_le x y); assumption.
Qed.

Lemma Qltb_false (x y : Q) : Qltb x y = false -> y <= x.
Proof.
  unfold Qltb. rewrite negb_false_iff. apply Qle_bool_iff.
Qed.

Module BeepFacts.
Section Facts.
Variable spectrum : Z -> list Q -> Q * Q.
Local Abbreviation pc := (Beep.process_chunk spectrum).

Lemma mean_axis1_length rows : length (mean_axis1 rows) = length rows.
Proof. unfold mean_axis1. apply length_map. Qed.

Ltac split_ifs :=
  repeat match goal with
  | |- context [if ?c then _ else _] => let E := fresh "E" in destruct c eqn:E
  | |- context [spectrum ?s ?x] => destruct (spectrum s x) eqn:?
  end.

(** The shape of one step: either no confirmation, with the candidate list
    kept or extended by [now], or a confirmation with its effects. *)
Lemma process_chunk_cases d c sr now :
  let '(d', b) := pc d c sr now in
  let rb := recent_beep_detections d ++ [now] in
  (b = false /\
     (recent_beep_detections d' = recent_beep_detections d
      \/ (recent_beep_detections d' = rb /\
          ((length rb < min_beep_count)%nat \/ min_beep_duration <= now - hd now rb))))
  \/ (b = true /\ recent_beep_detections d' = [] /\
      (min_beep_count <= length rb)%nat /\ now - hd now rb < min_beep_duration /\
      confidence d' = Qmin 1 (average (recent_energies d')) /\
      beep_detected d' = true /\ last_beep_time d' = Some now).
Proof.
  unfold Beep.process_chunk. split_ifs; simpl;
  first
  [ left; split; [reflexivity|];
    first [ left; reflexivity
          | right; split; [reflexivity|];
            first [ left; apply Nat.leb_gt; assumption
                  | right; apply Qltb_false; assumption ] ]
  | right; repeat split; try reflexivity;
    first [ apply Nat.leb_le; assumption | apply Qltb_iff; assumption ] ].
Qed.

Lemma process_chunk_energies_bound d c sr now :
  (length (recent_energies d) <= 5)%nat ->
  (length (recent_energies (fst (pc d c sr now))) <= 5)%nat.
Proof.
  intro H. unfold Beep.process_chunk. split_ifs; simpl; try lia;
  repeat match goal with
  | E : Nat.ltb _ _ = _ |- _ => first [apply Nat.ltb_lt in E | apply Nat.ltb_ge in E]
  end;
  rewrite ?length_tl, ?length_app; simpl; rewrite ?length_app in *; simpl in *; lia.
Qed.


(** C8: a chunk with fewer than 1024 samples per channel (in particular one
    with fewer than 1024 samples, or the empty chunk) returns [False] and
    leaves every field of the detector unchanged. *)
Theorem short_chunk_no_state_change d c sr now :
  (audio_len c < 1024)%nat -> pc d c sr now = (d, false).
Proof.
  intro H. unfold Beep.process_chunk.
  destruct (Nat.eqb (audio_len c) 0); [reflexivity|].
  assert (Hn : Nat.ltb (length match c with Mono xs => xs
                                  | Multi rows => mean_axis1 rows end) 1024 = true).
  { apply Nat.ltb_lt. destruct c; simpl in *; rewrite ?mean_axis1_length; exact H. }
  rewrite Hn. reflexivity.
Qed.

(** C4: [process_chunk] returns [True] only when the candidate list, with
    the current time appended, has at least 2 entries and the current time
    is less than 0.3s after the oldest candidate; it then sets
    [confidence = min(1.0, rolling average)] over the at most 5 kept
    ratios, clears the candidate list and sets [beep_detected].  From an
    empty candidate list one call never confirms, and neither does a second
    call 0.3s or more after the first. *)
Theorem beep_confirmation_rule d c sr now :
  (snd (pc d c sr now) = true ->
     let d' := fst (pc d c sr now) in
     let rb := recent_beep_detections d ++ [now] in
     (2 <= length rb)%nat /\ now - hd now rb < 3 # 10 /\
     confidence d' = Qmin 1 (average (recent_energies d')) /\
     recent_beep_detections d' = [] /\ beep_detected d' = true) /\
  ((length (recent_energies d) <= 5)%nat ->
     (length (recent_energies (fst (pc d c sr now))) <= 5)%nat) /\
  (recent_beep_detections d = [] -> snd (pc d c sr now) = false) /\
  (forall c' t', recent_beep_detections d = [] -> now + (3 # 10) <= t' ->
     snd (pc (fst (pc d c sr now)) c' sr t') = false).
Proof.
  split; [|split; [|split]].
  - intro Hb. pose proof (process_chunk_cases d c sr now) as Hc.
    destruct (pc d c sr now) as [d' b]. simpl in *.
    destruct Hc as [[-> _]|(_ & H1 & H2 & H3 & H4 & H5 & _)]; [discriminate|].
    repeat split; assumption.
  - apply process_chunk_energies_bound.
  - intro He. pose proof (process_chunk_cases d c sr now) as Hc.
    destruct (pc d c sr now) as [d' b]. simpl in *. rewrite He in Hc. simpl in Hc.
    destruct Hc as [[-> _]|(_ & _ & H2 & _)]; [reflexivity|].
    unfold min_beep_count in H2. lia.
  - intros c' t' He Ht. pose proof (process_chunk_cases d c sr now) as Hc.
    destruct (pc d c sr now) as [d1 b1]. simpl.
    rewrite He in Hc. simpl in Hc.
    pose proof (process_chunk_cases d1 c' sr t') as Hc'.
    destruct (pc d1 c' sr t') as [d2 b2]. simpl.
    destruct Hc' as [[-> _]|(_ & _ & H2 & H3 & _)]; [reflexivity|].
    exfalso.
    destruct Hc as [[_ [Hl|[Hl _]]]|(_ & Hl & _)]; rewrite Hl in H2, H3;
      simpl in H2, H3; unfold min_beep_count, min_beep_duration in *; try lia.
    lra.
Qed.

(** C10: a call that does not confirm never removes candidates (the list is
    kept or extended); so once the head candidate [h] is at least 0.3s older
    than every later call time, no later call confirms and [h] stays at the
    head of the list. *)
Theorem stale_candidate_blocks_confirmation :
  (forall d c sr now, snd (pc d c sr now) = false ->
     exists ext, recent_beep_detections (fst (pc d c sr now))
                 = recent_beep_detections d ++ ext) /\
  (forall sr d h rest calls,
     recent_beep_detections d = h :: rest ->
     Forall (fun p => h + (3 # 10) <= snd p) calls ->
     Forall (fun b => b = false) (snd (beep_run spectrum sr d calls)) /\
     exists rest', recent_beep_detections (fst (beep_run spectrum sr d calls)) = h :: rest').
Proof.
  split.
  - intros d c sr now Hb. pose proof (process_chunk_cases d c sr now) as Hc.
    destruct (pc d c sr now) as [d' b]. simpl in *. subst b.
    destruct Hc as [[_ [Hl|[Hl _]]]|(Hf & _)]; [| |discriminate].
    + exists []. rewrite app_nil_r. exact Hl.
    + exists [now]. exact Hl.
  - intros sr d h rest calls. revert d rest.
    induction calls as [|[c t] calls IH]; intros d rest Hd Hcalls; simpl.
    + split; [constructor|]. exists rest. exact Hd.
    + inversion Hcalls as [|? ? Ht Hrest]; subst. simpl in Ht.
      pose proof (process_chunk_cases d c sr t) as Hc.
      destruct (pc d c sr t) as [d1 b] eqn:Epc.
      rewrite Hd in Hc. simpl in Hc.
      destruct Hc as [[Hb [Hl|[Hl _]]]|(_ & _ & _ & H3 & _)].
      * destruct (IH d1 rest Hl Hrest) as [IH1 IH2].
        destruct (beep_run spectrum sr d1 calls) as [d2 bs]. simpl in *.
        split; [constructor; assumption|exact IH2].
      * destruct (IH d1 (rest ++ [t]) Hl Hrest) as [IH1 IH2].
        destruct (beep_run spectrum sr d1 calls) as [d2 bs]. simpl in *.
        split; [constructor; assumption|exact IH2].
      * exfalso. unfold min_beep_duration in H3. lra.
Qed.

End Facts.
End BeepFacts.

Module SilenceFacts.
Section Facts.
Variable vad : Z -> list Z -> option bool.
Local Abbreviation pc := (Silence.process_chunk vad).

Ltac split_update :=
  unfold silence_update;
  repeat match goal with
  | |- context [if ?c then _ else _] => let E := fresh "E" in destruct c eqn:E
  | |- context [match truthy_time ?s with _ => _ end] =>
      let E := fresh "E" in destruct (truthy_time s) eqn:E
  end; simpl.

Lemma truthy_time_some s st : truthy_time s = Some st -> s = Some st.
Proof.
  unfold truthy_time. destruct s as [q|]; [|discriminate].
  destruct (Qeq_bool q 0); congruence.
Qed.

Lemma silence_inv_mono t t' d : silence_inv t d -> t <= t' -> silence_inv t' d.
Proof.
  intros (H1 & H2 & H3 & H4) Ht.
  split; [exact H1|]. split; [exact H2|]. split; [exact H3|].
  intros st Hs. destruct (H4 st Hs) as (A & B & C). repeat split; lra.
Qed.

Lemma silence_update_inv t d b now :
  silence_inv t d -> t <= now -> silence_inv now (silence_update d b now).
Proof.
  intros Hi Ht. pose proof (silence_inv_mono t now d Hi Ht) as (H1 & H2 & H3 & H4).
  split_update; unfold silence_inv; simpl.
  - split; [intro Hz; exfalso; apply Hz; reflexivity|].
    split; [intros; reflexivity|]. split; [intros; reflexivity|].
    intros; discriminate.
  - exact (conj H1 (conj H2 (conj H3 H4))).
  - pose proof (H2 eq_refl) as Hz.
    split; [intros Hn; exfalso; apply Hn, Hz|]. split; [discriminate|].
    split; [discriminate|]. intros st Hs; injection Hs as <-; lra.
  - match goal with E : truthy_time _ = Some _ |- _ => apply truthy_time_some in E end.
    match goal with E : silence_start d = Some ?q |- _ =>
      destruct (H4 q E) as (A & B & C); rewrite E end.
    split; [intros _; split; [reflexivity|discriminate]|].
    split; [discriminate|]. split; [discriminate|].
    intros st Hs; injection Hs as <-; lra.
  - split; [intros Hz; split; [reflexivity|apply H1, Hz]|].
    split; [discriminate|]. exact (conj H3 H4).
  - exact (conj H1 (conj H2 (conj H3 H4))).
Qed.


Lemma silence_update_monotone t d b now :
  silence_inv t d -> t <= now -> speech_active d = false ->
  speech_active (silence_update d b now) = false ->
  silence_duration d <= silence_duration (silence_update d b now).
Proof.
  intros Hi Ht Ha. pose proof (silence_inv_mono t now d Hi Ht) as (H1 & H2 & H3 & H4).
  split_update; intros Ha'; try discriminate; try apply Qle_refl.
  match goal with E : truthy_time _ = Some _ |- _ => apply truthy_time_some in E end.
  match goal with E : silence_start d = Some ?q |- _ =>
    destruct (H4 q E) as (A & B & C) end.
  lra.
Qed.

Lemma silence_update_nonzero d b now :
  silence_duration d == 0 -> ~ silence_duration (silence_update d b now) == 0 ->
  b = false /\ (3 <= consecutive_silence (silence_update d b now))%nat /\
  speech_active d = false /\ silence_start d <> None.
Proof.
  intros Hz. split_update; intros Hn; try (exfalso; apply Hn; first [reflexivity|exact Hz]).
  repeat match goal with
  | E : truthy_time _ = Some _ |- _ => apply truthy_time_some in E
  | E : Nat.leb _ _ = true |- _ => apply Nat.leb_le in E
  end.
  repeat split; try assumption; congruence.
Qed.

Lemma silence_update_start d b now :
  silence_start (silence_update d b now) <> None ->
  silence_start d <> None \/ speech_active d = true.
Proof.
  split_update; intros Hs; auto.
Qed.

Lemma silence_update_onset d now :
  (2 <= consecutive_speech (silence_update d true now))%nat ->
  speech_active (silence_update d true now) = true /\
  silence_duration (silence_update d true now) == 0.
Proof.
  split_update; intros Hc.
  - split; reflexivity.
  - match goal with E : Nat.leb _ _ = false |- _ => apply Nat.leb_gt in E end. lia.
Qed.

Lemma silence_run_start d calls :
  silence_start (silence_run vad d calls) <> None ->
  silence_start d <> None \/
  exists k, speech_active (silence_run vad d (firstn k calls)) = true.
Proof.
  revert d. induction calls as [|[c t] calls IH]; intros d Hs; simpl in *.
  - left; exact Hs.
  - destruct (IH _ Hs) as [H1|[k Hk]].
    + unfold Silence.process_chunk in H1.
      destruct (Nat.eqb (audio_len c) 0); simpl in H1; [left; exact H1|].
      destruct (silence_update_start _ _ _ H1) as [H|H]; [left; exact H|].
      right. exists 0%nat. exact H.
    + right. exists (S k). exact Hk.
Qed.

(** C6: [silence_inv] holds initially and is preserved by [reset] and by
    every [process_chunk] call (with non-decreasing time); so the duration
    is nonzero only while speech is inactive and a silence start is set.
    The duration becomes nonzero only on a non-speech classification with
    at least 3 consecutive non-speech classifications, while silent with a
    silence start, and a silence start only exists after a speech-active
    state since the last reset; speech onset resets it to 0; and while
    speech stays inactive it does not decrease. *)
Theorem silence_duration_invariant :
  (forall sr t0, silence_inv t0 (silence_init sr t0)) /\
  (forall t d now, t <= now -> silence_inv now (silence_reset d now)) /\
  (forall t d c now, silence_inv t d -> t <= now ->
     silence_inv now (fst (pc d c now))) /\
  (forall d c now, silence_duration d == 0 ->
     ~ silence_duration (fst (pc d c now)) == 0 ->
     audio_len c <> 0%nat /\ Silence.classify vad (sample_rate d) c = false /\
     (3 <= consecutive_silence (fst (pc d c now)))%nat /\
     speech_active d = false /\ silence_start d <> None) /\
  (forall sr t0 calls,
     silence_start (silence_run vad (silence_init sr t0) calls) <> None ->
     exists k, speech_active (silence_run vad (silence_init sr t0) (firstn k calls)) = true) /\
  (forall d c now, audio_len c <> 0%nat -> Silence.classify vad (sample_rate d) c = true ->
     (2 <= consecutive_speech (fst (pc d c now)))%nat ->
     speech_active (fst (pc d c now)) = true /\
     silence_duration (fst (pc d c now)) == 0) /\
  (forall t d c now, silence_inv t d -> t <= now -> speech_active d = false ->
     speech_active (fst (pc d c now)) = false ->
     silence_duration d <= silence_duration (fst (pc d c now))).
Proof.
  split; [|split; [|split; [|split; [|split; [|split]]]]].
  - intros sr t0. unfold silence_inv; simpl.
    split; [intro Hz; exfalso; apply Hz; reflexivity|].
    split; [discriminate|]. split; [intros; reflexivity|]. intros; discriminate.
  - intros t d now _. unfold silence_inv; simpl.
    split; [intro Hz; exfalso; apply Hz; reflexivity|].
    split; [discriminate|]. split; [intros; reflexivity|]. intros; discriminate.
  - intros t d c now Hi Ht. unfold Silence.process_chunk.
    destruct (Nat.eqb (audio_len c) 0); simpl.
    + exact (silence_inv_mono t now d Hi Ht).
    + exact (silence_update_inv t d _ now Hi Ht).
  - intros d c now Hz Hn. unfold Silence.process_chunk in *.
    destruct (Nat.eqb (audio_len c) 0) eqn:E; simpl in *.
    + exfalso; exact (Hn Hz).
    + apply Nat.eqb_neq in E. split; [exact E|].
      exact (silence_update_nonzero d _ now Hz Hn).
  - intros sr t0 calls Hs.
    destruct (silence_run_start _ calls Hs) as [H|H]; [|exact H].
    exfalso. apply H. reflexivity.
  - intros d c now Hc Hs. unfold Silence.process_chunk.
    apply Nat.eqb_neq in Hc. rewrite Hc, Hs. simpl.
    apply silence_update_onset.
  - intros t d c now Hi Ht Ha. unfold Silence.process_chunk.
    destruct (Nat.eqb (audio_len c) 0); simpl.
    + intros _. apply Qle_refl.
    + exact (silence_update_monotone t d _ now Hi Ht Ha).
Qed.

End Facts.
End SilenceFacts.

(** C7: the heuristic judges an excerpt complete iff the complete-indicator
    count exceeds the incomplete-indicator count, or some complete indicator
    is present and the excerpt is longer than 10 characters; the excerpt
    "Hi this is Mike please leave a message after the beep" contains an
    incomplete indicator and is judged complete. *)
Theorem heuristic_complete_iff :
  (forall text,
     heuristic_analysis text = true <->
     (indicator_score incomplete_indicators (lower text)
        < indicator_score complete_indicators (lower text)
      \/ (0 < indicator_score complete_indicators (lower text)
          /\ 10 < String.length text))%nat) /\
  (0 < indicator_score incomplete_indicators
         (lower "Hi this is Mike please leave a message after the beep"))%nat /\
  heuristic_analysis "Hi this is Mike please leave a message after the beep" = true.
Proof.
  split; [|split; [vm_compute; lia|vm_compute; reflexivity]].
  intro text. unfold heuristic_analysis.
  destruct (Nat.ltb _ _ || (Nat.ltb 0 _ && Nat.ltb 10 _))%bool eqn:E.
  - split; [intros _|reflexivity].
    apply orb_true_iff in E as [E|E].
    + left. apply Nat.ltb_lt, E.
    + apply andb_true_iff in E as [E1 E2].
      right. split; apply Nat.ltb_lt; assumption.
  - split; [discriminate|]. intros H. exfalso.
    apply orb_false_iff in E as [E1 E2].
    apply Nat.ltb_ge in E1.
    destruct H as [H|[H1 H2]]; [lia|].
    apply andb_false_iff in E2 as [E2|E2]; apply Nat.ltb_ge in E2; lia.
Qed.

Module SpliceFacts.

Lemma splice_list {A} (x v : list A) k :
  (k <= length x)%nat ->
  let s := firstn k x ++ v ++ firstn (length x - k) (skipn k x) in
  length s = (length x + length v)%nat /\
  firstn (k - 0) (skipn 0 s) = firstn (k - 0) (skipn 0 x) /\
  firstn (k + length v - k) (skipn k s) = v /\
  firstn (length s - (k + length v)) (skipn (k + length v) s)
    = firstn (length x - k) (skipn k x).
Proof.
  intros Hk s. subst s. simpl. rewrite Nat.sub_0_r.
  assert (Hf : length (firstn k x) = k) by (apply firstn_length_le; exact Hk).
  assert (Hr : firstn (length x - k) (skipn k x) = skipn k x)
    by (apply firstn_all2; rewrite length_skipn; lia).
  rewrite Hr.
  split; [|split; [|split]].
  - rewrite !length_app, Hf, length_skipn. lia.
  - rewrite firstn_app, Hf, Nat.sub_diag. simpl. rewrite app_nil_r.
    rewrite firstn_firstn, Nat.min_id. reflexivity.
  - rewrite skipn_app, Hf, Nat.sub_diag. rewrite (skipn_all2 (n:=k) (firstn k x)) by lia. simpl.
    replace (k + length v - k)%nat with (length v) by lia.
    rewrite firstn_app, Nat.sub_diag. simpl. rewrite firstn_all, app_nil_r. reflexivity.
  - rewrite skipn_app, Hf.
    rewrite (skipn_all2 (n:=(k + length v)%nat) (firstn k x)) by lia. simpl.
    replace (k + length v - k)%nat with (length v) by lia.
    rewrite skipn_app, Nat.sub_diag, skipn_all. simpl.
    apply firstn_all2. rewrite !length_app, Hf, length_skipn. lia.
Qed.

Lemma round_half_even_nonpos q : q <= 0 -> (round_half_even q <= 0)%Z.
Proof.
  intro Hq. unfold round_half_even.
  pose proof (Qfloor_le q) as H1. pose proof (Qlt_floor q) as H2.
  set (f := Qfloor q) in *.
  rewrite inject_Z_plus in H2.
  assert (Hf : (f <= 0)%Z) by (rewrite Zle_Qle; change (inject_Z 0) with (0 # 1); lra).
  destruct (Qltb (q - inject_Z f) (1 # 2)) eqn:E1; [exact Hf|].
  apply Qltb_false in E1.
  assert (Hneg : (f < 0)%Z) by (rewrite Zlt_Qlt; change (inject_Z 0) with (0 # 1); lra).
  destruct (Qltb (1 # 2) (q - inject_Z f)); [lia|].
  destruct (Z.even f); lia.
Qed.

Lemma insertion_index_clamped dt sr n :
  (0 <= sr)%Z ->
  insertion_index dt sr n
  = Z.to_nat (Z.max 0 (Z.min (round_half_even (dt * inject_Z sr)) (Z.of_nat n))).
Proof.
  intro Hsr. unfold insertion_index.
  destruct (Qle_bool 0 dt) eqn:E; [reflexivity|].
  assert (Hdt : dt < 0).
  { apply Qnot_le_lt. intro H. apply Qle_bool_iff in H. congruence. }
  assert (Hs : 0 <= inject_Z sr) by (change 0 with (inject_Z 0); rewrite <- Zle_Qle; exact Hsr).
  assert (Hp : 0 <= - dt * inject_Z sr) by (apply Qmult_le_0_compat; lra).
  assert (Hp' : dt * inject_Z sr <= 0).
  { setoid_replace (- dt * inject_Z sr) with (- (dt * inject_Z sr)) in Hp by ring. lra. }
  pose proof (round_half_even_nonpos _ Hp'). f_equal. lia.
Qed.

(** C1 (amended): with [index = round(drop_time * sr)] (ties to even)
    clamped into [0, original_length], the array passed to [write_audio]
    has length [original_length + clip_length], equals [original[0:index]]
    on its first [index] samples, equals the clip on the next
    [clip_length], and equals [original[index:]] after that; the written
    samples are that array unchanged when its peak absolute sample is at
    most 1.0, and that array divided by its peak otherwise. *)
Theorem insert_at_drop_splices orig vm sr dt :
  (0 <= sr)%Z -> same_ndim orig vm = true ->
  let n := audio_len orig in
  let idx := Z.to_nat (Z.max 0 (Z.min (round_half_even (dt * inject_Z sr)) (Z.of_nat n))) in
  exists spliced,
    insert_at_drop orig vm sr dt = Some (write_audio_samples spliced) /\
    (idx <= n)%nat /\
    audio_len spliced = (n + audio_len vm)%nat /\
    audio_slice spliced 0 idx = audio_slice orig 0 idx /\
    audio_slice spliced idx (idx + audio_len vm) = vm /\
    audio_slice spliced (idx + audio_len vm) (audio_len spliced) = audio_slice orig idx n /\
    audio_len (write_audio_samples spliced) = audio_len spliced /\
    (max_abs (all_samples spliced) <= 1 -> write_audio_samples spliced = spliced) /\
    (1 < max_abs (all_samples spliced) ->
       write_audio_samples spliced
       = audio_map (fun v => v / max_abs (all_samples spliced)) spliced).
Proof.
  intros Hsr Hnd n idx.
  assert (Hidx : insertion_index dt sr n = idx) by (apply insertion_index_clamped, Hsr).
  assert (Hle : (idx <= n)%nat) by (subst idx; lia).
  clearbody idx. subst n. unfold insert_at_drop. rewrite Hidx.
  assert (Hw : forall a, audio_len (write_audio_samples a) = audio_len a /\
    (max_abs (all_samples a) <= 1 -> write_audio_samples a = a) /\
    (1 < max_abs (all_samples a) ->
       write_audio_samples a = audio_map (fun v => v / max_abs (all_samples a)) a)).
  { intro a. unfold write_audio_samples, Qgtb.
    destruct (Qle_bool (max_abs (all_samples a)) 1) eqn:E; simpl.
    - split; [reflexivity|]. split; [reflexivity|].
      intro H. apply Qle_bool_iff in E. lra.
    - split; [destruct a; simpl; rewrite ?length_map; reflexivity|].
      split; [|reflexivity]. intro H. apply Qle_bool_iff in H. congruence. }
  destruct orig as [x|x], vm as [y|y]; simpl in Hnd; try discriminate;
    simpl in Hle |- *; rewrite Nat.sub_0_r;
    destruct (splice_list x y idx Hle) as (L & P & M & S); simpl in P;
    rewrite Nat.sub_0_r in P.
  - exists (Mono (firstn idx x ++ y ++ firstn (length x - idx) (skipn idx x))).
    destruct (Hw (Mono (firstn idx x ++ y ++ firstn (length x - idx) (skipn idx x))))
      as (W1 & W2 & W3).
    split; [reflexivity|]. split; [exact Hle|]. simpl.
    rewrite !Nat.sub_0_r. repeat split; try assumption; f_equal; assumption.
  - exists (Multi (firstn idx x ++ y ++ firstn (length x - idx) (skipn idx x))).
    destruct (Hw (Multi (firstn idx x ++ y ++ firstn (length x - idx) (skipn idx x))))
      as (W1 & W2 & W3).
    split; [reflexivity|]. split; [exact Hle|]. simpl.
    rewrite !Nat.sub_0_r. repeat split; try assumption; f_equal; assumption.
Qed.

End SpliceFacts.

Module EngineFacts.
Section Facts.
Context {TS : Type} (E : Env TS) (clk : Clock).

(** C2: while untriggered, a non-empty chunk on which the BeepDetector
    confirms ends the loop with reason [beep_detected] at
    [(i + 1) * 0.1]s, whatever the silence duration and the context; the
    greeting oracle is not consulted on that chunk. *)
Theorem beep_has_priority sr total st i chunk rest :
  ls_triggered st = false -> audio_len chunk <> 0%nat ->
  snd (Beep.process_chunk (spectrum E) (ls_beep st) chunk sr (chunk_time clk i)) = true ->
  let processed_duration := inject_Z (Z.of_nat (i + 1)) * (1 # 10) in
  chunk_loop E clk sr total ((i, chunk) :: rest) st =
  mkLoop (fst (Beep.process_chunk (spectrum E) (ls_beep st) chunk sr (chunk_time clk i)))
         (fst (Silence.process_chunk (vad E) (ls_silence st) chunk (chunk_time clk i)))
         (stt_process_chunk E (ls_stt st) chunk sr processed_duration total (chunk_time clk i))
         true (Some processed_duration) (Some "beep_detected"%string) processed_duration.
Proof.
  intros Ht Hc Hb pd. simpl.
  apply Nat.eqb_neq in Hc. rewrite Hc.
  destruct (Beep.process_chunk (spectrum E) (ls_beep st) chunk sr (chunk_time clk i))
    as [bd b] eqn:Eb.
  simpl in Hb. subst b.
  destruct (Silence.process_chunk (vad E) (ls_silence st) chunk (chunk_time clk i))
    as [sd q] eqn:Es.
  simpl. rewrite Ht. reflexivity.
Qed.

(** C5: when the chunk loop ends untriggered, the stream's decision is
    [end_of_speech] if the last speech time is more than 1.0s after the
    stream start and [end_of_audio] otherwise, at 0.9 x total duration. *)
Theorem fallback_decision bd ts file a sr :
  decode E file = Some (a, sr) -> chunk_size sr <> 0%nat ->
  let total := inject_Z (Z.of_nat (audio_len a)) / inject_Z sr in
  let st := chunk_loop E clk sr total (indexed_chunks a (chunk_size sr))
              (mkLoop (beep_reset bd) (silence_init sr (t_load clk))
                      (stt_reset E ts (t_start clk)) false None None 0) in
  ls_triggered st = false ->
  process_audio_stream E clk bd ts file =
  (ls_beep st, ls_stt st,
   inr (Some (total * (9 # 10)),
        Some (if Qltb (t_start clk + 1) (last_speech_time (ls_silence st))
              then "end_of_speech"%string else "end_of_audio"%string))).
Proof.
  intros Hd Hc total st Ht. unfold process_audio_stream.
  rewrite Hd. apply Nat.eqb_neq in Hc. rewrite Hc.
  fold total. fold st. unfold finish. rewrite Ht. simpl.
  destruct (Qltb (t_start clk + 1) (last_speech_time (ls_silence st))); reflexivity.
Qed.

End Facts.

Section Directory.
Context {TS : Type} (E : Env TS) (clocks : string -> Clock) (directory output_dir : string).

(** C9: a file that cannot be decoded gets the null decision
    [(None, None)] without an exception, is recorded with status FAILED,
    and the batch goes on with the remaining files. *)
Theorem decode_failure_recorded bd ts filename rest results :
  decode E (path_join directory filename) = None ->
  process_audio_stream E (clocks filename) bd ts (path_join directory filename)
  = (beep_reset bd, stt_reset E ts (t_start (clocks filename)), inr (None, None)) /\
  process_files E clocks directory output_dir bd ts (filename :: rest) results
  = process_files E clocks directory output_dir (beep_reset bd)
      (stt_reset E ts (t_start (clocks filename))) rest
      (results ++ [(filename, mkResult None None "FAILED" None)]).
Proof.
  intro Hd.
  assert (Hp : process_audio_stream E (clocks filename) bd ts (path_join directory filename)
               = (beep_reset bd, stt_reset E ts (t_start (clocks filename)), inr (None, None)))
    by (unfold process_audio_stream; rewrite Hd; reflexivity).
  split; [exact Hp|]. simpl. rewrite Hp. reflexivity.
Qed.

End Directory.
End EngineFacts.

Module ChunkFacts.

Lemma firstn_add_split {A} (n m : nat) (l : list A) :
  firstn (n + m) l = firstn n l ++ firstn m (skipn n l).
Proof.
  revert l. induction n as [|n IH]; intros [|x l]; simpl; try reflexivity.
  - rewrite firstn_nil. reflexivity.
  - f_equal. apply IH.
Qed.

Lemma frames_of_slice a s e :
  frames_of (audio_slice a s e) = firstn (e - s) (skipn s (frames_of a)).
Proof.
  destruct a; simpl; [rewrite skipn_map, firstn_map|]; reflexivity.
Qed.

Lemma frames_of_length a : length (frames_of a) = audio_len a.
Proof. destruct a; simpl; [apply length_map|reflexivity]. Qed.

Lemma chunks_cover {A} (l : list A) cs k :
  (k * cs <= length l)%nat ->
  concat (map (fun i => firstn (i * cs + cs - i * cs) (skipn (i * cs) l)) (seq 0 k))
  = firstn (k * cs) l.
Proof.
  induction k as [|k IH]; intro Hk; [reflexivity|].
  rewrite seq_S, map_app, concat_app, IH by lia. cbn [map concat].
  rewrite app_nil_r, Nat.add_0_l.
  replace (k * cs + cs - k * cs)%nat with cs by lia.
  rewrite <- firstn_add_split. f_equal. lia.
Qed.

(** C3 (amended): the loop visits the chunks [0 .. len(audio) // cs - 1]
    with [cs = int(sample_rate * 0.1)], each of exactly [cs] samples per
    channel; together they are [audio[0 : (len // cs) * cs]], and the fewer
    than [cs] samples after that are in no chunk. *)
Theorem chunks_are_full_and_cover_prefix a cs :
  (0 < cs)%nat ->
  let k := (audio_len a / cs)%nat in
  map fst (indexed_chunks a cs) = seq 0 k /\
  Forall (fun p => audio_len (snd p) = cs) (indexed_chunks a cs) /\
  concat (map (fun p => frames_of (snd p)) (indexed_chunks a cs))
    = firstn (k * cs) (frames_of a) /\
  (audio_len a - k * cs < cs)%nat.
Proof.
  intros Hcs k.
  assert (Hk : (k * cs <= audio_len a)%nat).
  { subst k. rewrite Nat.mul_comm. apply Nat.Div0.mul_div_le. }
  split; [|split; [|split]].
  - unfold indexed_chunks. rewrite map_map. simpl. apply map_id.
  - unfold indexed_chunks. apply Forall_map, Forall_forall.
    intros i Hi. apply in_seq in Hi. simpl.
    rewrite <- frames_of_length, frames_of_slice, length_firstn, length_skipn,
      frames_of_length.
    assert (Hi' : (i * cs + cs <= k * cs)%nat).
    { replace (i * cs + cs)%nat with (S i * cs)%nat by lia.
      apply Nat.mul_le_mono_r. lia. }
    lia.
  - unfold indexed_chunks. rewrite map_map. simpl.
    rewrite <- (chunks_cover (frames_of a) cs k) by (rewrite frames_of_length; exact Hk).
    f_equal. apply map_ext. intro i. apply frames_of_slice.
  - pose proof (Nat.div_mod (audio_len a) cs ltac:(lia)) as Hd.
    pose proof (Nat.mod_upper_bound (audio_len a) cs ltac:(lia)).
    subst k. rewrite Nat.mul_comm. lia.
Qed.

(** C3: a stream of 900 samples at 8000 Hz is cut into one chunk of 800
    samples; its final partial chunk of 100 samples is never processed. *)
Lemma partial_chunk_dropped :
  indexed_chunks (Mono (repeat 0 900)) (chunk_size 8000)
  = [(0%nat, Mono (repeat 0 800))] /\
  audio_len (audio_slice (Mono (repeat 0 900)) 800 900) = 100%nat.
Proof. split; vm_compute; reflexivity. Qed.

End ChunkFacts.

(** ** Concrete instances *)

Module Instances.

(** C1: an original sample of 2.0 with a clip sample of 1.0 inserted at
    time 0: the written output is rescaled by the peak 2.0, so
    [output[index + clip_length:]] is [[1.0]], not [original[index:] = [2.0]]. *)
Lemma insert_at_drop_rescales_loud_input :
  insert_at_drop (Mono [2]) (Mono [1]) 8000 0 = Some (Mono [1 # 2; 2 # 2]) /\
  audio_slice (Mono [1 # 2; 2 # 2]) (0 + 1) 2 <> audio_slice (Mono [2]) 0 1 /\
  ~ (2 # 2 == 2).
Proof.
  split; [vm_compute; reflexivity|]. split.
  - vm_compute. discriminate.
  - vm_compute. discriminate.
Qed.

Lemma insert_at_drop_splices_witness :
  (0 <= 10)%Z /\ same_ndim (Mono [1 # 4; 1 # 5; 1 # 6]) (Mono [9 # 10]) = true /\
  exists spliced,
    insert_at_drop (Mono [1 # 4; 1 # 5; 1 # 6]) (Mono [9 # 10]) 10 (15 # 100)
      = Some (write_audio_samples spliced) /\
    audio_len spliced = 4%nat.
Proof.
  split; [lia|]. split; [reflexivity|].
  destruct (SpliceFacts.insert_at_drop_splices (Mono [1 # 4; 1 # 5; 1 # 6]) (Mono [9 # 10])
              10 (15 # 100) ltac:(lia) eq_refl) as (sp & H1 & _ & H3 & _).
  exists sp. split; [exact H1|exact H3].
Defined.

Lemma short_chunk_no_state_change_witness :
  (audio_len (Mono (repeat (1 # 2) 800)) < 1024)%nat /\
  Beep.process_chunk (fun _ _ => (1, 2)) (mkBeep false None 0 [0] [1 # 2])
    (Mono (repeat (1 # 2) 800)) 8000 (1 # 10)
  = (mkBeep false None 0 [0] [1 # 2], false).
Proof.
  split; [cbn [audio_len]; rewrite repeat_length; lia|].
  apply (BeepFacts.short_chunk_no_state_change (fun _ _ => (1, 2))).
  cbn [audio_len]; rewrite repeat_length; lia.
Defined.

Lemma chunks_are_full_and_cover_prefix_witness :
  (0 < chunk_size 8000)%nat /\
  map fst (indexed_chunks (Mono (repeat 0 900)) (chunk_size 8000)) = [0%nat].
Proof.
  assert (H : (0 < chunk_size 8000)%nat) by (vm_compute; lia).
  split; [exact H|].
  exact (proj1 (ChunkFacts.chunks_are_full_and_cover_prefix (Mono (repeat 0 900))
                  (chunk_size 8000) H)).
Defined.

Lemma beep_has_priority_witness :
  ls_triggered armed_state = false /\ audio_len (Mono (repeat (1 # 2) 2000)) <> 0%nat /\
  snd (Beep.process_chunk (spectrum tone_env) (ls_beep armed_state)
         (Mono (repeat (1 # 2) 2000)) 20000 (chunk_time tenth_clock 1)) = true /\
  ls_trigger_reason (chunk_loop tone_env tenth_clock 20000 (1 # 5)
     [(1%nat, Mono (repeat (1 # 2) 2000))] armed_state) = Some "beep_detected"%string.
Proof.
  assert (H1 : ls_triggered armed_state = false) by reflexivity.
  assert (H2 : audio_len (Mono (repeat (1 # 2) 2000)) <> 0%nat) by (vm_compute; discriminate).
  assert (H3 : snd (Beep.process_chunk (spectrum tone_env) (ls_beep armed_state)
         (Mono (repeat (1 # 2) 2000)) 20000 (chunk_time tenth_clock 1)) = true)
    by (vm_compute; reflexivity).
  split; [exact H1|]. split; [exact H2|]. split; [exact H3|].
  rewrite (EngineFacts.beep_has_priority tone_env tenth_clock 20000 (1 # 5) armed_state 1
             (Mono (repeat (1 # 2) 2000)) [] H1 H2 H3).
  reflexivity.
Defined.

Lemma fallback_decision_witness :
  decode quiet_env "calls/tone.wav" = Some (Mono (repeat (1 # 2) 4000), 20000%Z) /\
  chunk_size 20000 <> 0%nat /\
  snd (process_audio_stream quiet_env tenth_clock beep_init tt "calls/tone.wav")
  = inr (Some (inject_Z (Z.of_nat 4000) / inject_Z 20000 * (9 # 10)),
         Some "end_of_audio"%string).
Proof.
  assert (H1 : decode quiet_env "calls/tone.wav" = Some (Mono (repeat (1 # 2) 4000), 20000%Z))
    by reflexivity.
  assert (H2 : chunk_size 20000 <> 0%nat) by (vm_compute; discriminate).
  split; [exact H1|]. split; [exact H2|].
  rewrite (EngineFacts.fallback_decision quiet_env tenth_clock beep_init tt _ _ _ H1 H2
             ltac:(vm_compute; reflexivity)).
  vm_compute. reflexivity.
Defined.

Lemma decode_failure_recorded_witness :
  decode tone_env (path_join "calls" "bad.wav") = None /\
  process_files tone_env (fun _ => tenth_clock) "calls" "output" beep_init tt
    ["bad.wav"; "tone.wav"]%string []
  = process_files tone_env (fun _ => tenth_clock) "calls" "output" beep_init tt
      ["tone.wav"]%string [("bad.wav"%string, mkResult None None "FAILED" None)].
Proof.
  assert (H : decode tone_env (path_join "calls" "bad.wav") = None) by reflexivity.
  split; [exact H|].
  exact (proj2 (EngineFacts.decode_failure_recorded tone_env (fun _ => tenth_clock)
                  "calls" "output" beep_init tt "bad.wav" ["tone.wav"]%string [] H)).
Defined.

End Instances.

Module SttFacts.

Lemma str_app_assoc (a b c : string) : (a ++ (b ++ c))%string = ((a ++ b) ++ c)%string.
Proof. induction a as [|x a IH]; simpl; [reflexivity | now rewrite IH]. Qed.

Lemma str_app_length (a b : string) :
  String.length (a ++ b) = (String.length a + String.length b)%nat.
Proof. induction a as [|x a IH]; simpl; [reflexivity | now rewrite IH]. Qed.

Lemma str_take_drop (n : nat) (s : string) : (str_take n s ++ str_drop n s)%string = s.
Proof.
  revert s; induction n as [|n IH]; intros [|c s]; simpl; try reflexivity.
  now rewrite IH.
Qed.

Lemma str_drop_length (n : nat) (s : string) :
  String.length (str_drop n s) = (String.length s - n)%nat.
Proof.
  revert s; induction n as [|n IH]; intros [|c s]; simpl; try lia.
  apply IH.
Qed.

Lemma py_tail_length (n : nat) (s : string) :
  String.length (py_tail n s) = Nat.min n (String.length s).
Proof. unfold py_tail. rewrite str_drop_length. lia. Qed.

Lemma py_tail_suffix (n : nat) (s : string) :
  exists p, s = (p ++ py_tail n s)%string.
Proof. exists (str_take (String.length s - n) s). symmetry. apply str_take_drop. Qed.

Lemma str_eqb_empty (s : string) : String.eqb s "" = true <-> s = ""%string.
Proof. apply String.eqb_eq. Qed.

Lemma str_length_zero (s : string) : String.length s = 0%nat -> s = ""%string.
Proof. destruct s; simpl; [reflexivity | discriminate]. Qed.

(** The transcriber's fields are untouched when it is called again within
    [chunk_interval] of its last update. *)
Lemma simulate_rate_limited tr d e now :
  now - last_chunk_time tr < chunk_interval ->
  simulate_transcription tr d e now = Some (tr, None).
Proof.
  intro H. unfold simulate_transcription.
  apply Qltb_iff in H. now rewrite H.
Qed.

(** [py_int] is monotone against an integer bound. *)
Lemma py_int_le (q : Q) (n : Z) :
  q <= inject_Z n -> (0 <= n)%Z -> (py_int q <= n)%Z.
Proof.
  intros Hq Hn. unfold py_int. unfold Qle in Hq. simpl in Hq.
  destruct q as [a b]; simpl in *.
  destruct (Z_le_gt_dec 0 a) as [Ha|Ha].
  - rewrite Z.quot_div_nonneg by lia.
    apply Z.div_le_upper_bound; lia.
  - assert (E : a = (- (- a))%Z) by lia. rewrite E, Z.quot_opp_l by lia.
    rewrite Z.quot_div_nonneg by lia.
    assert (0 <= - a / Z.pos b)%Z by (apply Z.div_pos; lia). lia.
Qed.

Lemma py_int_nonneg (q : Q) : 0 <= q -> (0 <= py_int q)%Z.
Proof.
  intro Hq. unfold py_int. unfold Qle in Hq. simpl in Hq.
  destruct q as [a b]; simpl in *.
  rewrite Z.quot_div_nonneg by lia. apply Z.div_pos; lia.
Qed.

Lemma new_position_bound (len : nat) (r : Q) :
  (py_int (inject_Z (Z.of_nat len) * Qmin 1 r) <= Z.of_nat len)%Z.
Proof.
  apply py_int_le; [|lia].
  rewrite <- (Qmult_1_r (inject_Z (Z.of_nat len))) at 2.
  rewrite (Qmult_comm _ (Qmin 1 r)), (Qmult_comm _ 1).
  apply Qmult_le_compat_r; [apply Q.le_min_l|].
  change 0 with (inject_Z 0). rewrite <- Zle_Qle. lia.
Qed.

(** X1: one call of [simulate_transcription] keeps the transcriber
    invariant, never moves the position backwards, never changes a phrase
    once chosen, and returns either the next slice [phrase[old:new]] of the
    phrase (with [old < new]) or the fixed trailer, the latter only for a
    phrase mentioning neither "after the beep" nor "message". *)
Theorem simulate_transcription_fragments tr d e now tr' out :
  transcriber_inv tr ->
  simulate_transcription tr d e now = Some (tr', out) ->
  transcriber_inv tr' /\
  (phrase_position tr <= phrase_position tr')%nat /\
  (forall p, current_phrase tr = Some p -> current_phrase tr' = Some p) /\
  match out with
  | None => True
  | Some f =>
      exists p, current_phrase tr' = Some p /\
      ((f = py_slice p (phrase_position tr) (phrase_position tr') /\
        (phrase_position tr < phrase_position tr')%nat) \/
       (f = trailer_fragment /\ phrase_position tr' = phrase_position tr /\
        contains "after the beep" (lower p) = false /\
        contains "message" (lower p) = false))
  end.
Proof.
  intros Hinv Hs. unfold simulate_transcription in Hs.
  destruct (Qltb (now - last_chunk_time tr) chunk_interval).
  { injection Hs as <- <-. repeat split; auto. }
  destruct (match current_phrase tr with
            | Some p => Some p
            | None => _
            end) as [p|] eqn:Ep; [|discriminate].
  assert (Hp : (phrase_position tr <= String.length p)%nat /\
               (forall q, current_phrase tr = Some q -> q = p)).
  { unfold transcriber_inv in Hinv. destruct (current_phrase tr) as [q|].
    - injection Ep as <-. split; [exact Hinv | intros q' Hq; now injection Hq].
    - split; [lia | discriminate]. }
  destruct Hp as [Hpos Hkeep].
  match type of Hs with
  | context [py_int (inject_Z (Z.of_nat (String.length p)) * Qmin 1 ?r)] =>
      pose proof (new_position_bound (String.length p) r) as Hnp;
      set (np := py_int (inject_Z (Z.of_nat (String.length p)) * Qmin 1 r)) in Hs, Hnp
  end.
  destruct (Z.of_nat (phrase_position tr) <? np)%Z eqn:Elt.
  - apply Z.ltb_lt in Elt. injection Hs as <- <-. unfold transcriber_inv; simpl.
    split; [lia|]. split; [lia|].
    split; [intros q Hq; now rewrite (Hkeep q Hq)|].
    exists p. split; [reflexivity|]. left. split; [reflexivity|lia].
  - assert (Hinv' : transcriber_inv (mkTranscriber (Some p) (phrase_position tr) now))
      by exact Hpos.
    assert (Hk' : forall q, current_phrase tr = Some q ->
                  current_phrase (mkTranscriber (Some p) (phrase_position tr) now) = Some q)
      by (intros q Hq; simpl; now rewrite (Hkeep q Hq)).
    destruct (Qltb (d * (8 # 10)) e);
      [destruct (negb (contains "after the beep" (lower p))
                 && negb (contains "message" (lower p)))%bool eqn:Ec|];
      injection Hs as <- <-; (split; [exact Hinv'|]); (split; [simpl; lia|]);
      (split; [exact Hk'|]); try exact I.
    apply andb_true_iff in Ec. destruct Ec as [E1 E2].
    apply negb_true_iff in E1, E2.
    exists p. split; [reflexivity|]. right. repeat split; assumption.
Qed.

Lemma stt_process_shape st e d now st' b :
  stt_process st e d now = Some (st', b) ->
  exists tr out,
    simulate_transcription (transcriber st) d e now = Some (tr, out) /\
    transcriber st' = tr /\ stt_audio_duration st' = d /\
    last_transcription_time st' = last_transcription_time st /\
    ((b = false /\ transcript st' = transcript st /\ sentence_buffer st' = sentence_buffer st
      /\ (out = None \/ out = Some ""%string)) \/
     (b = true /\ exists t, out = Some t /\ t <> ""%string /\
        transcript st' = (transcript st ++ t)%string /\
        sentence_buffer st' =
          (if Nat.ltb 200 (String.length (sentence_buffer st ++ t))
           then py_tail 200 (sentence_buffer st ++ t) else (sentence_buffer st ++ t))%string)).
Proof.
  unfold stt_process. intro H.
  destruct (simulate_transcription (transcriber st) d e now) as [[tr out]|]; [|discriminate].
  exists tr, out. split; [reflexivity|].
  destruct out as [t|].
  - destruct (String.eqb t "") eqn:Et.
    + injection H as <- <-. apply str_eqb_empty in Et. subst t.
      repeat split; auto. left. repeat split; auto.
    + injection H as <- <-. apply String.eqb_neq in Et.
      repeat split; auto. right. split; [reflexivity|]. exists t. repeat split; auto.
  - injection H as <- <-. repeat split; auto. left. repeat split; auto.
Qed.

(** X2: [process_chunk] keeps the sentence buffer at most 200 characters
    long and a suffix of the transcript. *)
Theorem stt_process_buffer_inv st e d now st' b :
  stt_inv st -> stt_process st e d now = Some (st', b) -> stt_inv st'.
Proof.
  intros [Hlen [p Hp]] H. unfold stt_inv.
  destruct (stt_process_shape st e d now st' b H)
    as (tr & out & _ & _ & _ & _ & [(_ & Ht & Hb & _) | (_ & t & _ & _ & Ht & Hb)]).
  - split; [now rewrite Hb|]. exists p. now rewrite Ht, Hb.
  - rewrite Hb, Ht, Hp.
    destruct (Nat.ltb 200 (String.length (sentence_buffer st ++ t))) eqn:El.
    + split; [rewrite py_tail_length; lia|].
      destruct (py_tail_suffix 200 (sentence_buffer st ++ t)) as [q Hq].
      exists (p ++ q)%string. rewrite <- !str_app_assoc, <- Hq. reflexivity.
    + apply Nat.ltb_ge in El. split; [exact El|].
      exists p. symmetry. apply str_app_assoc.
Qed.


(** X4: [get_current_context] returns a suffix of the transcript of at
    most 200 characters, and returns [""] exactly when the transcript is
    empty. *)
Theorem current_context_suffix st :
  stt_inv st ->
  (exists p, transcript st = (p ++ get_current_context st)%string) /\
  (String.length (get_current_context st) <= 200)%nat /\
  (get_current_context st = ""%string <-> transcript st = ""%string).
Proof.
  intros [Hlen [p Hp]]. unfold get_current_context.
  destruct (Nat.ltb 10 (String.length (sentence_buffer st))) eqn:E10.
  - apply Nat.ltb_lt in E10. split; [eauto|]. split; [exact Hlen|].
    split; intro H.
    + rewrite H in E10. simpl in E10. lia.
    + rewrite H in Hp. destruct p; simpl in Hp; [|discriminate].
      destruct (sentence_buffer st); simpl in *; [lia | discriminate].
  - destruct (String.eqb (transcript st) "") eqn:Et.
    + apply str_eqb_empty in Et. rewrite Et.
      split; [exists ""%string; reflexivity|]. split; [simpl; lia|]. tauto.
    + apply String.eqb_neq in Et.
      split; [apply py_tail_suffix|]. rewrite py_tail_length. split; [lia|].
      split; intro H; [|contradiction].
      exfalso. apply Et. apply str_length_zero.
      apply (f_equal String.length) in H. rewrite py_tail_length in H. cbn [String.length] in H. lia.
Qed.

(** X5: a call of [process_chunk] within [chunk_interval] (0.4 s) of the
    transcriber's last update appends nothing, returns [False] and only
    records the total duration. *)
Theorem stt_process_rate_limited st e d now :
  now - last_chunk_time (transcriber st) < chunk_interval ->
  stt_process st e d now
  = Some (mkStt (transcript st) (sentence_buffer st) (last_transcription_time st)
                (transcriber st) d, false).
Proof.
  intro H. unfold stt_process. now rewrite (simulate_rate_limited _ d e now H).
Qed.

Lemma phrase_at_none (i : Z) :
  (i <= 8)%Z -> phrase_at i = None <-> (i < -9)%Z.
Proof.
  intro H8. unfold phrase_at. cbv zeta.
  change (Z.of_nat (length voicemail_phrases)) with 9%Z.
  change (- (9))%Z with (-9)%Z.
  destruct (0 <=? i)%Z eqn:E1.
  - apply Z.leb_le in E1. rewrite (nth_error_None voicemail_phrases).
    change (length voicemail_phrases) with 9%nat. split; intro; lia.
  - apply Z.leb_gt in E1. destruct (-9 <=? i)%Z eqn:E2.
    + apply Z.leb_le in E2. rewrite (nth_error_None voicemail_phrases).
      change (length voicemail_phrases) with 9%nat. split; intro; lia.
    + apply Z.leb_gt in E2. split; intro; [lia | reflexivity].
Qed.

Lemma py_int_le_neg (q : Q) (m : Z) :
  (m < 0)%Z -> (py_int q <= m)%Z <-> q <= inject_Z m.
Proof.
  intro Hm. destruct q as [a b]. unfold py_int, Qle; simpl.
  destruct (Z_le_gt_dec 0 a) as [Ha|Ha].
  - rewrite Z.quot_div_nonneg by lia.
    assert (0 <= a / Z.pos b)%Z by (apply Z.div_pos; lia).
    split; intro; nia.
  - assert (E : a = (- (- a))%Z) by lia. rewrite E at 1. rewrite Z.quot_opp_l by lia.
    rewrite Z.quot_div_nonneg by lia.
    pose proof (Z.div_mod (- a) (Z.pos b) ltac:(lia)) as Hdm.
    pose proof (Z.mod_pos_bound (- a) (Z.pos b) ltac:(lia)) as Hmb.
    set (k := (- a / Z.pos b)%Z) in *. set (r := (- a mod Z.pos b)%Z) in *.
    split; intro; nia.
Qed.

(** X6: [simulate_transcription] raises (an IndexError on the phrase list)
    exactly when it is not rate-limited, no phrase has been chosen yet and
    the audio duration is at most -50 s; for every non-negative duration it
    returns normally. *)
Theorem simulate_raises_iff tr d e now :
  simulate_transcription tr d e now = None <->
  (chunk_interval <= now - last_chunk_time tr /\ current_phrase tr = None /\ d <= -50).
Proof.
  unfold simulate_transcription.
  destruct (Qltb (now - last_chunk_time tr) chunk_interval) eqn:Er.
  - apply Qltb_iff in Er. split; [discriminate|].
    intros [H _]. exfalso. exact (Qlt_not_le _ _ Er H).
  - apply Qltb_false in Er.
    assert (Hi : phrase_at (Z.min (Z.of_nat (length voicemail_phrases) - 1)
                                  (py_int (d / 5))) = None <-> d <= -50).
    { rewrite phrase_at_none by (change (Z.of_nat (length voicemail_phrases)) with 9%Z; lia).
      change (Z.of_nat (length voicemail_phrases)) with 9%Z.
      rewrite Z.min_lt_iff.
      assert (Hq : (py_int (d / 5) <= -10)%Z <-> d / 5 <= inject_Z (-10))
        by (apply py_int_le_neg; lia).
      split; intro H.
      - destruct H as [H|H]; [lia|]. assert (d / 5 <= inject_Z (-10)) by (apply Hq; lia).
        unfold inject_Z in *. change (d / 5) with (d * (1 # 5)) in *. lra.
      - right. cut (py_int (d / 5) <= -10)%Z; [lia|]. apply Hq. unfold inject_Z.
        change (d / 5) with (d * (1 # 5)). lra. }
    destruct (current_phrase tr) as [p|].
    + split; [|intros (_ & H & _); discriminate].
      intro H. exfalso. revert H.
      repeat match goal with |- context [if ?c then _ else _] => destruct c end;
        discriminate.
    + destruct (phrase_at _) as [p|] eqn:Ep.
      * split; [|intros (_ & _ & H); apply Hi in H; congruence].
        intro H. exfalso. revert H.
        repeat match goal with |- context [if ?c then _ else _] => destruct c end;
          discriminate.
      * split; [intros _|intros _; reflexivity].
        split; [exact Er|]. split; [reflexivity|]. now apply Hi.
Qed.

End SttFacts.

Module AnalyzerFacts.

Lemma rstrip_idem (s : string) : rstrip (rstrip s) = rstrip s.
Proof.
  induction s as [|c rest IH]; [reflexivity|]. simpl.
  destruct (is_space c && String.eqb (rstrip rest) "")%bool eqn:E; [reflexivity|].
  simpl. rewrite IH. now rewrite E.
Qed.

Lemma lstrip_head (s : string) :
  lstrip s = EmptyString \/ exists c rest, lstrip s = String c rest /\ is_space c = false.
Proof.
  induction s as [|c rest IH]; [now left|]. simpl.
  destruct (is_space c) eqn:E; [exact IH|]. right. eauto.
Qed.

Lemma lstrip_rstrip_lstrip (s : string) : lstrip (rstrip (lstrip s)) = rstrip (lstrip s).
Proof.
  destruct (lstrip_head s) as [H|(c & rest & H & Hc)]; rewrite H; [reflexivity|].
  simpl. rewrite Hc. simpl. now rewrite Hc.
Qed.

Lemma strip_idem (s : string) : strip (strip s) = strip s.
Proof. unfold strip. rewrite lstrip_rstrip_lstrip. apply rstrip_idem. Qed.

Lemma strip_empty : strip "" = ""%string.
Proof. reflexivity. Qed.

(** X7: without an LLM client (and so with an empty cache), the public
    check [is_greeting_complete] is the keyword heuristic on the stripped
    text of at least 5 characters, and leaves the analyzer unchanged. *)
Theorem no_client_uses_heuristic llm an text now t_reply :
  client an = false -> cache an = [] ->
  is_greeting_complete_llm llm an text now t_reply
  = (an, (negb (Nat.ltb (String.length (strip text)) 5)
          && heuristic_analysis (strip text))%bool).
Proof.
  intros Hc Hcache. unfold is_greeting_complete_llm.
  destruct (String.eqb text "") eqn:Et.
  - apply String.eqb_eq in Et. subst text. reflexivity.
  - simpl. destruct (Nat.ltb (String.length (strip text)) 5); [reflexivity|].
    unfold analyze_last_sentence. rewrite Hcache, Hc. reflexivity.
Qed.

(** X8: when the LLM call raises, [analyze_last_sentence] falls back to the
    keyword heuristic with the raw result "HEURISTIC_FALLBACK", leaves the
    cache as it was and records the call time. *)
Theorem llm_failure_falls_back llm an text now t_reply :
  client an = true ->
  (forall e, cache_lookup (analyzer_cache_key text) (cache an) = Some e -> 60 <= now - timestamp e) ->
  llm text = None ->
  exists t_call,
    analyze_last_sentence llm an text now t_reply
    = (mkAnalyzer true t_call (cache an) (rate_limit an),
       (heuristic_analysis text, "HEURISTIC_FALLBACK"%string)).
Proof.
  intros Hc Hmiss Hl. unfold analyze_last_sentence. 
  destruct (cache_lookup (analyzer_cache_key text) (cache an)) as [e|] eqn:El.
  - specialize (Hmiss e eq_refl).
    destruct (Qltb (now - timestamp e) 60) eqn:Ef;
      [apply Qltb_iff in Ef; exfalso; exact (Qlt_not_le _ _ Ef Hmiss)|].
    rewrite Hc, Hl. simpl. eexists. reflexivity.
  - rewrite Hc, Hl. simpl. eexists. reflexivity.
Qed.

(** X9: a verdict obtained from the LLM is cached: a later call whose
    stripped, lower-cased text agrees on the first 100 characters, made
    less than 60 s after the reply, returns the same verdict and raw
    result without calling the LLM (whatever it would answer) and without
    touching the analyzer. *)
Theorem llm_verdict_cached llm an text now t_reply an' c r :
  client an = true ->
  (forall e, cache_lookup (analyzer_cache_key text) (cache an) = Some e -> 60 <= now - timestamp e) ->
  (exists content, llm text = Some content) ->
  analyze_last_sentence llm an text now t_reply = (an', (c, r)) ->
  forall llm' text' now' t_reply',
    analyzer_cache_key text' = analyzer_cache_key text -> now' - t_reply < 60 ->
    analyze_last_sentence llm' an' text' now' t_reply' = (an', (c, r)).
Proof.
  intros Hc Hmiss [content Hl] H llm' text' now' t_reply' Hk Ht.
  unfold analyze_last_sentence in H. 
  assert (Hmiss' : match cache_lookup (analyzer_cache_key text) (cache an) with
                   | Some e => if Qltb (now - timestamp e) 60 then Some e else None
                   | None => None
                   end = None).
  { destruct (cache_lookup (analyzer_cache_key text) (cache an)) as [e|]; [|reflexivity].
    specialize (Hmiss e eq_refl).
    destruct (Qltb (now - timestamp e) 60) eqn:Ef; [|reflexivity].
    apply Qltb_iff in Ef. exfalso. exact (Qlt_not_le _ _ Ef Hmiss). }
  rewrite Hmiss', Hc, Hl in H. simpl in H. injection H as <- <- <-.
  unfold analyze_last_sentence.  rewrite Hk. simpl.
  rewrite String.eqb_refl. cbn [timestamp].
  apply Qltb_iff in Ht. rewrite Ht. reflexivity.
Qed.

(** X10: [analyze_last_sentence] keeps the client and the rate limit, and
    either leaves [last_call_time] alone or moves it to a time at least
    [rate_limit] after the previous call and no earlier than the call
    itself; the cache only gains an entry for the current text. *)
Theorem llm_calls_spaced llm an text now t_reply an' res :
  analyze_last_sentence llm an text now t_reply = (an', res) ->
  client an' = client an /\ rate_limit an' = rate_limit an /\
  (last_call_time an' = last_call_time an \/
   (last_call_time an + rate_limit an <= last_call_time an' /\ now <= last_call_time an')) /\
  (cache an' = cache an \/ exists e, cache an' = (analyzer_cache_key text, e) :: cache an).
Proof.
  intro H. unfold analyze_last_sentence in H. 
  assert (Ht : forall t_call,
            t_call = (if Qltb (now - last_call_time an) (rate_limit an)
                      then last_call_time an + rate_limit an else now) ->
            last_call_time an + rate_limit an <= t_call /\ now <= t_call).
  { intros t_call ->. destruct (Qltb (now - last_call_time an) (rate_limit an)) eqn:E.
    - apply Qltb_iff in E. split; lra.
    - apply Qltb_false in E. split; lra. }
  destruct (match cache_lookup (analyzer_cache_key text) (cache an) with
            | Some e => if Qltb (now - timestamp e) 60 then Some e else None
            | None => None
            end) as [e|].
  { injection H as <- _. auto. }
  destruct (client an) eqn:Hc; simpl in H.
  - destruct (llm text) as [content|]; injection H as <- _; simpl;
      (split; [reflexivity|]); (split; [reflexivity|]).
    + split; [right; now apply Ht|]. right. eauto.
    + split; [right; now apply Ht|]. now left.
  - injection H as <- _. rewrite Hc. auto.
Qed.

(** X11: surrounding whitespace never matters to [is_greeting_complete]:
    it answers for a text exactly as for the text stripped. *)
Theorem greeting_check_strips llm an text now t_reply :
  is_greeting_complete_llm llm an text now t_reply
  = is_greeting_complete_llm llm an (strip text) now t_reply.
Proof.
  unfold is_greeting_complete_llm. rewrite strip_idem.
  destruct (String.eqb text "") eqn:Et.
  - apply String.eqb_eq in Et. subst text. reflexivity.
  - destruct (Nat.ltb (String.length (strip text)) 5) eqn:El.
    + now rewrite !Bool.orb_true_r.
    + destruct (String.eqb (strip text) "") eqn:Es; [|reflexivity].
      apply String.eqb_eq in Es. rewrite Es in El. discriminate.
Qed.

End AnalyzerFacts.

Module UtilsFacts.

Lemma max_abs_fold (xs : list Q) (m : Q) :
  m <= fold_left (fun m x => Qmax m (Qabs x)) xs m /\
  (forall x, In x xs -> Qabs x <= fold_left (fun m x => Qmax m (Qabs x)) xs m).
Proof.
  revert m. induction xs as [|y ys IH]; intro m; simpl.
  - split; [apply Qle_refl | tauto].
  - destruct (IH (Qmax m (Qabs y))) as [H1 H2]. split.
    + eapply Qle_trans; [apply Q.le_max_l | exact H1].
    + intros x [<-|Hx]; [|auto].
      eapply Qle_trans; [apply Q.le_max_r | exact H1].
Qed.

Lemma max_abs_nonneg (xs : list Q) : 0 <= max_abs xs.
Proof. apply max_abs_fold. Qed.

Lemma max_abs_ge (xs : list Q) (x : Q) : In x xs -> Qabs x <= max_abs xs.
Proof. apply max_abs_fold. Qed.

Lemma all_samples_map (f : Q -> Q) (a : audio) :
  all_samples (audio_map f a) = map f (all_samples a).
Proof. destruct a; simpl; [reflexivity | symmetry; apply concat_map]. Qed.

Lemma div_peak_le_1 (v m : Q) : 1 < m -> Qabs v <= m -> Qabs (v / m) <= 1.
Proof.
  intros Hm Hv. unfold Qdiv. rewrite Qabs_Qmult, Qabs_Qinv, (Qabs_pos m) by lra.
  apply Qle_shift_div_r; lra.
Qed.

(** The samples [write_audio] hands to [sf.write] all lie in [-1, 1]. *)
Lemma write_audio_samples_in_range (a : audio) :
  Forall (fun v => Qabs v <= 1) (all_samples (write_audio_samples a)).
Proof.
  unfold write_audio_samples. apply Forall_forall.
  destruct (Qgtb (max_abs (all_samples a)) 1) eqn:E.
  - unfold Qgtb in E. apply negb_true_iff in E.
    assert (Hm : 1 < max_abs (all_samples a))
      by (apply Qnot_le_lt; intro H; apply Qle_bool_iff in H; congruence).
    rewrite all_samples_map. intros x Hx. apply in_map_iff in Hx.
    destruct Hx as (v & <- & Hv). apply div_peak_le_1; [exact Hm|].
    now apply max_abs_ge.
  - unfold Qgtb in E. apply negb_false_iff, Qle_bool_iff in E.
    intros x Hx. eapply Qle_trans; [apply max_abs_ge, Hx | exact E].
Qed.

(** X12: every sample [insert_voice_mail_at_drop] writes lies in [-1, 1],
    whatever the amplitudes of the original and the voice mail. *)
Theorem insert_output_in_range orig vm sr_orig drop_time out :
  insert_at_drop orig vm sr_orig drop_time = Some out ->
  Forall (fun v => Qabs v <= 1) (all_samples out).
Proof.
  unfold insert_at_drop. intro H.
  destruct (concatenate3 _ _ _) as [new_audio|]; [|discriminate].
  injection H as <-. apply write_audio_samples_in_range.
Qed.

Lemma average_dup (x : Q) : average [x; x] == x.
Proof. unfold average, sumQ. simpl. field. Qed.

(** X13: [ensure_channels] turns a mono signal into stereo and back without
    changing any sample: each recovered sample equals the original. *)
Theorem ensure_channels_round_trip (xs : list Q) :
  exists ys, ensure_channels (ensure_channels (Mono xs) 2) 1 = Mono ys /\
             Forall2 Qeq ys xs.
Proof.
  exists (mean_axis1 (stack2 xs)). split; [reflexivity|].
  unfold mean_axis1, stack2. rewrite map_map.
  induction xs as [|x xs IH]; simpl; constructor; [apply average_dup | exact IH].
Qed.


Lemma lerp_bound (fa fb xa xb x M : Q) :
  xa <= x -> x < xb -> Qabs fa <= M -> Qabs fb <= M ->
  Qabs ((fb - fa) / (xb - xa) * (x - xa) + fa) <= M.
Proof.
  intros H1 H2 Ha Hb.
  apply Qabs_Qle_condition in Ha, Hb. apply Qabs_Qle_condition.
  set (s := (x - xa) / (xb - xa)).
  assert (Hs0 : 0 <= s) by (unfold s; apply Qle_shift_div_l; lra).
  assert (Hs1 : s <= 1) by (unfold s; apply Qle_shift_div_r; lra).
  assert (E : (fb - fa) / (xb - xa) * (x - xa) == (fb - fa) * s)
    by (unfold s; field; intro; lra).
  rewrite E. split; nra.
Qed.

Lemma interp_seg_bound (x M : Q) : forall xp fp xa fa,
  xa <= x -> Qabs fa <= M -> Forall (fun f => Qabs f <= M) fp ->
  Qabs (interp_seg x xa fa xp fp) <= M.
Proof.
  induction xp as [|xb xp IH]; intros fp xa fa Hx Ha Hf;
    destruct fp as [|fb fp]; simpl; auto.
  inversion Hf; subst.
  destruct (Qltb x xb) eqn:E.
  - apply Qltb_iff in E. apply lerp_bound; auto.
  - apply Qltb_false in E. apply IH; auto.
Qed.

Lemma interp_bound (xs xp fp ys : list Q) (M : Q) :
  interp xs xp fp = Some ys -> Forall (fun f => Qabs f <= M) fp ->
  Forall (fun y => Qabs y <= M) ys.
Proof.
  unfold interp. destruct xp as [|xa xp]; [discriminate|].
  destruct fp as [|fa fp]; [discriminate|].
  intros H Hf. injection H as <-. inversion Hf; subst.
  apply Forall_forall. intros y Hy. apply in_map_iff in Hy. destruct Hy as (x & <- & _).
  destruct (Qltb x xa) eqn:E; [assumption|].
  apply Qltb_false in E. apply interp_seg_bound; auto.
Qed.

Lemma nth_bound (l : list Q) (n : nat) (M : Q) :
  0 <= M -> Forall (fun f => Qabs f <= M) l -> Qabs (nth n l 0) <= M.
Proof.
  intros HM Hl. destruct (nth_in_or_default n l 0) as [Hin|Heq].
  - rewrite Forall_forall in Hl. auto.
  - rewrite Heq. exact HM.
Qed.

Lemma all_some_forall {A : Type} (P : A -> Prop) (l : list (option A)) (xs : list A) :
  all_some l = Some xs -> (forall o x, In o l -> o = Some x -> P x) -> Forall P xs.
Proof.
  revert xs. induction l as [|o l IH]; intros xs H HP; simpl in H.
  - injection H as <-. constructor.
  - destruct o as [x|]; [|discriminate].
    destruct (all_some l) as [ys|] eqn:E; [|discriminate]. simpl in H. injection H as <-.
    constructor; [eapply HP; [left|]; reflexivity|].
    apply IH; [reflexivity|]. intros o y Ho. apply HP. now right.
Qed.

(** X15: resampling the voice mail never raises its peak: every resampled
    sample is bounded in absolute value by the largest absolute sample of
    the input, so resampling alone never introduces clipping. *)
Theorem resample_peak vm sr_vm sr_orig vm' :
  resample vm sr_vm sr_orig = Some vm' ->
  Forall (fun v => Qabs v <= max_abs (all_samples vm)) (all_samples vm').
Proof.
  unfold resample. set (M := max_abs (all_samples vm)).
  assert (HM : 0 <= M) by apply max_abs_nonneg.
  assert (Hall : Forall (fun f => Qabs f <= M) (all_samples vm))
    by (apply Forall_forall; intros; now apply max_abs_ge).
  destruct (negb (sr_vm =? sr_orig)%Z).
  2: { intro H; injection H as <-; exact Hall. }
  destruct vm as [xs|rows]; simpl in Hall.
  - unfold option_map. destruct (resample_channel xs _) as [ys|] eqn:Er; [|discriminate].
    intro H; injection H as <-. simpl. eapply interp_bound; [exact Er | exact Hall].
  - destruct (all_some _) as [chs|] eqn:Ea; [|discriminate].
    assert (Hch : Forall (fun ch => Forall (fun f => Qabs f <= M) ch) chs).
    { eapply all_some_forall; [exact Ea|]. intros o ch Ho Hoc.
      apply in_map_iff in Ho. destruct Ho as (c & <- & _).
      eapply interp_bound; [exact Hoc|].
      apply Forall_forall. intros v Hv. unfold column in Hv.
      apply in_map_iff in Hv. destruct Hv as (r & <- & Hr).
      apply nth_bound; [exact HM|].
      apply Forall_forall. intros f Hf. rewrite Forall_forall in Hall. apply Hall.
      apply in_concat. eauto. }
    unfold option_map. destruct (stack_columns chs _) as [rows'|] eqn:Es; [|discriminate].
    intro H; injection H as <-. simpl.
    unfold stack_columns in Es. destruct chs as [|c0 chs]; [discriminate|].
    injection Es as <-.
    apply Forall_forall. intros v Hv. apply in_concat in Hv. destruct Hv as (row & Hrow & Hv).
    apply in_map_iff in Hrow. destruct Hrow as (j & <- & _).
    change (In v (map (fun ch => nth j ch 0) (c0 :: chs))) in Hv.
    apply in_map_iff in Hv. destruct Hv as (ch & <- & Hin).
    apply nth_bound; [exact HM|]. rewrite Forall_forall in Hch. now apply Hch.
Qed.









End UtilsFacts.

Module DetectorFacts.

Lemma Qgtb_iff (x y : Q) : Qgtb x y = true <-> y < x.
Proof. unfold Qgtb. fold (Qltb y x). apply Qltb_iff. Qed.

Section Beep.
Variable spectrum : Z -> list Q -> Q * Q.

Ltac beep_cases :=
  repeat match goal with
  | |- context [if ?c then _ else _] => let E := fresh "E" in destruct c eqn:E
  | |- context [spectrum ?s ?x] => destruct (spectrum s x) eqn:?
  end.

(** X17: only a confirming call of [BeepDetector.process_chunk] touches
    [beep_detected], [last_beep_time] and [confidence]; a confirming call
    stamps [last_beep_time] with the current time and sets a confidence
    in (0.08, 1]. *)
Theorem beep_state_only_on_confirmation d c sr now :
  let '(d', b) := Beep.process_chunk spectrum d c sr now in
  if b then last_beep_time d' = Some now /\ 8 # 100 < confidence d' /\ confidence d' <= 1
  else beep_detected d' = beep_detected d /\ last_beep_time d' = last_beep_time d /\
       confidence d' = confidence d.
Proof.
  unfold Beep.process_chunk. beep_cases; simpl; try (repeat split; reflexivity).
  all: match goal with E : Qgtb (average ?re) (8 # 100) = true |- _ =>
    apply Qgtb_iff in E; split; [reflexivity|]; split;
    [apply Q.min_glb_lt; lra | apply Q.le_min_l] end.
Qed.

End Beep.

Section Silence.
Variable vad : Z -> list Z -> option bool.

(** X18: the speech/silence hysteresis of [SilenceDetector]: speech becomes
    active only on a second consecutive speech chunk, it becomes inactive
    only on a third consecutive silent chunk, which also starts the silence
    clock; [last_speech_time] moves only when speech is (re)confirmed, to
    the current time; and after every update one of the two counters is
    zero. *)
Theorem silence_hysteresis d b t :
  let d' := silence_update d b t in
  (speech_active d = false -> speech_active d' = true ->
     b = true /\ (1 <= consecutive_speech d)%nat) /\
  (speech_active d = true -> speech_active d' = false ->
     b = false /\ (2 <= consecutive_silence d)%nat /\ silence_start d' = Some t) /\
  (last_speech_time d' = last_speech_time d \/
   (b = true /\ last_speech_time d' = t /\ speech_active d' = true)) /\
  (consecutive_speech d' = 0%nat \/ consecutive_silence d' = 0%nat).
Proof.
  unfold silence_update.
  destruct b.
  - destruct (Nat.leb 2 (S (consecutive_speech d))) eqn:E; simpl.
    + apply Nat.leb_le in E.
      repeat split; intros; try congruence; try lia; auto.
    + repeat split; intros; try congruence; auto.
  - destruct (Nat.leb 3 (S (consecutive_silence d))) eqn:E.
    + apply Nat.leb_le in E. destruct (speech_active d) eqn:Ea.
      * simpl. repeat split; intros; try congruence; try lia; auto.
      * destruct (truthy_time (silence_start d)); simpl;
          repeat split; intros; try congruence; auto.
    + simpl. repeat split; intros; try congruence; auto.
Qed.

(** X19: a non-empty chunk too short for one 30 ms frame, or any chunk when
    the VAD raises, is treated as silence. *)
Theorem short_or_failed_frame_is_silence d c now :
  audio_len c <> 0%nat ->
  ((audio_len c < frame_size (sample_rate d))%nat \/
   (forall fr, vad (sample_rate d) fr = None)) ->
  Silence.process_chunk vad d c now
  = (silence_update d false now, silence_duration (silence_update d false now)).
Proof.
  intros Hne Hc. unfold Silence.process_chunk.
  apply Nat.eqb_neq in Hne. rewrite Hne.
  unfold Silence.classify.
  destruct (Nat.leb _ _) eqn:El; [|reflexivity].
  destruct Hc as [Hs|Hv].
  - exfalso. apply Nat.leb_le in El. rewrite length_map in El.
    destruct (Qgtb _ _); destruct c; simpl in *; rewrite ?length_map in El; lia.
  - now rewrite Hv.
Qed.

Lemma silence_step_no_speech d c t :
  (forall sr fr, vad sr fr <> Some true) ->
  speech_active d = false -> silence_start d = None ->
  let d1 := fst (Silence.process_chunk vad d c t) in
  speech_active d1 = false /\ silence_start d1 = None /\
  silence_duration d1 = silence_duration d /\
  last_speech_time d1 = last_speech_time d /\ sample_rate d1 = sample_rate d /\
  snd (Silence.process_chunk vad d c t) = silence_duration d.
Proof.
  intros Hv Ha Hs.
  assert (Hcl : Silence.classify vad (sample_rate d) c = false).
  { unfold Silence.classify. destruct (Nat.leb _ _); [|reflexivity].
    destruct (vad _ _) as [[]|] eqn:E; [exfalso; exact (Hv _ _ E)|reflexivity|reflexivity]. }
  unfold Silence.process_chunk. destruct (Nat.eqb (audio_len c) 0); [simpl; auto 7|].
  rewrite Hcl. unfold silence_update.
  destruct (Nat.leb 3 (S (consecutive_silence d))); simpl; [|auto 7].
  rewrite Ha, Hs. simpl. auto 7.
Qed.

(** X20: without any chunk classified as speech, a detector that has not
    heard speech never starts measuring silence: its silence start stays
    unset and its duration and last speech time never change. *)
Theorem no_speech_no_silence_measure d calls :
  (forall sr fr, vad sr fr <> Some true) ->
  speech_active d = false -> silence_start d = None ->
  let d' := silence_run vad d calls in
  speech_active d' = false /\ silence_start d' = None /\
  silence_duration d' = silence_duration d /\ last_speech_time d' = last_speech_time d /\
  sample_rate d' = sample_rate d.
Proof.
  intros Hv. revert d. induction calls as [|[c t] calls IH]; intros d Ha Hs; simpl.
  - auto.
  - pose proof (silence_step_no_speech d c t Hv Ha Hs) as Hstep.
    destruct Hstep as (H1 & H2 & H3 & H4 & H5 & _).
    destruct (IH _ H1 H2) as (G1 & G2 & G3 & G4 & G5).
    repeat split; congruence.
Qed.

End Silence.

End DetectorFacts.

Module EngineExtra.

Section Loop.
Context {TS : Type} (E : Env TS) (clk : Clock).

Lemma trigger_drop_fields (st : LoopState TS) reason ts :
  ls_triggered (trigger_drop st reason ts) = true /\
  ls_trigger_time (trigger_drop st reason ts) = Some ts /\
  ls_trigger_reason (trigger_drop st reason ts) = Some reason /\
  ls_silence (trigger_drop st reason ts) = ls_silence st.
Proof. repeat split. Qed.



End Loop.


Section NoSpeech.
Context {TS : Type} (E : Env TS) (clk : Clock).
Hypothesis no_speech : forall sr fr, vad E sr fr <> Some true.

Lemma chunk_loop_no_speech sr total chunks : forall st,
  speech_active (ls_silence st) = false -> silence_start (ls_silence st) = None ->
  silence_duration (ls_silence st) = 0 ->
  let st' := chunk_loop E clk sr total chunks st in
  last_speech_time (ls_silence st') = last_speech_time (ls_silence st) /\
  (ls_trigger_reason st' = ls_trigger_reason st \/
   ls_trigger_reason st' = Some "beep_detected"%string).
Proof.
  induction chunks as [|[i c] rest IH]; intros st Ha Hs Hd; simpl; [auto|].
  destruct (Nat.eqb (audio_len c) 0); [apply IH; auto|].
  pose proof (DetectorFacts.silence_step_no_speech (vad E) (ls_silence st) c
                (chunk_time clk i) no_speech Ha Hs) as (G1 & G2 & G3 & G4 & _ & G6).
  destruct (Beep.process_chunk _ _ _ _ _) as [bd b].
  destruct (Silence.process_chunk _ _ _ _) as [sd sdur]. simpl in G1, G2, G3, G4, G6.
  assert (Hrest : forall st0, ls_silence st0 = sd -> ls_trigger_reason st0 = ls_trigger_reason st ->
            let st' := chunk_loop E clk sr total rest st0 in
            last_speech_time (ls_silence st') = last_speech_time (ls_silence st) /\
            (ls_trigger_reason st' = ls_trigger_reason st \/
             ls_trigger_reason st' = Some "beep_detected"%string)).
  { intros st0 Hs0 Hr0. destruct (IH st0) as [L R]; rewrite ?Hs0; try congruence.
    split; [congruence|]. rewrite <- Hr0. exact R. }
  simpl. destruct (ls_triggered st); simpl; [apply Hrest; reflexivity|].
  destruct b; [simpl; auto|].
  assert (Hq : Qle_bool (6 # 10) sdur = false).
  { rewrite G6, Hd. reflexivity. }
  rewrite Hq. apply Hrest; reflexivity.
Qed.

(** X22: when the VAD never reports speech, a file is never dropped on
    silence with a complete greeting; its reason is a beep, the end of the
    audio, or the end of speech, the last only when building the
    [SilenceDetector] came more than 1 s after the start of the call (its
    [last_speech_time] is the construction time). *)
Theorem no_speech_no_silence_trigger bd ts file bd' ts' t r :
  process_audio_stream E clk bd ts file = (bd', ts', inr (Some t, Some r)) ->
  r = "beep_detected"%string \/ r = "end_of_audio"%string \/
  (r = "end_of_speech"%string /\ t_start clk + 1 < t_load clk).
Proof.
  unfold process_audio_stream. intro H.
  destruct (decode E file) as [[a sr]|]; [|discriminate].
  destruct (Nat.eqb (chunk_size sr) 0); [discriminate|].
  injection H as _ _ _ Hr.
  match type of Hr with context [chunk_loop E clk sr ?tot ?ch ?st0] =>
    destruct (chunk_loop_no_speech sr tot ch st0 eq_refl eq_refl eq_refl) as [Hl Hreason];
    set (st' := chunk_loop E clk sr tot ch st0) in *
  end.
  simpl in Hl, Hreason. unfold finish in Hr.
  destruct (ls_triggered st'); simpl in Hr.
  - destruct Hreason as [Hreason|Hreason]; rewrite Hreason in Hr; [discriminate|].
    injection Hr as <-. now left.
  - rewrite Hl in Hr. destruct (Qltb (t_start clk + 1) (t_load clk)) eqn:Eq; simpl in Hr.
    + injection Hr as <-. right. right. split; [reflexivity|]. now apply Qltb_iff.
    + injection Hr as <-. right. left. reflexivity.
Qed.

End NoSpeech.

(** X23: [process_directory] records exactly one result per file, in the
    order of the files, after the results it started with; every status is
    "SUCCESS" or "FAILED", an entry without a timestamp is "FAILED" with no
    output file, and an entry with a timestamp names an output file. *)
Theorem process_files_entries {TS : Type} (E : Env TS) clocks directory output_dir :
  forall files bd ts results results',
  process_files E clocks directory output_dir bd ts files results = inr results' ->
  exists new, results' = results ++ new /\ map fst new = files /\
  Forall (fun e =>
            (r_status (snd e) = "SUCCESS"%string \/ r_status (snd e) = "FAILED"%string) /\
            (r_timestamp (snd e) = None ->
               r_status (snd e) = "FAILED"%string /\ r_output_file (snd e) = None) /\
            (r_timestamp (snd e) <> None -> r_output_file (snd e) <> None)) new.
Proof.
  induction files as [|f rest IH]; intros bd ts results results' H; simpl in H.
  - injection H as <-. exists []. rewrite app_nil_r. auto.
  - destruct (process_audio_stream E (clocks f) bd ts (path_join directory f))
      as [[bd1 ts1] [e|[[t|] reason]]]; [discriminate| |].
    + destruct (IH _ _ _ _ H) as (new & -> & Hf & Hall).
      eexists. split; [rewrite <- app_assoc; reflexivity|]. split; [simpl; now rewrite Hf|].
      constructor; [|exact Hall]. simpl.
      split; [destruct (insert_ok E _ _); auto|].
      split; [discriminate|]. intros _. discriminate.
    + destruct (IH _ _ _ _ H) as (new & -> & Hf & Hall).
      eexists. split; [rewrite <- app_assoc; reflexivity|]. split; [simpl; now rewrite Hf|].
      constructor; [|exact Hall]. simpl. split; [auto|]. split; [auto|]. intro Hc. now elim Hc.
Qed.

End EngineExtra.

(** Concrete instances of the facts above. *)
Module ExtraInstances.

Definition greeting : string := "Hi, please leave a message".

Definition stt_start : SttBuffers := mkStt "" "" 0 transcriber_init 0.

Definition first_phrase_state : Transcriber :=
  mkTranscriber (Some "You've reached Mike Rodriguez"%string) 4 1.

Definition stt_after_first : SttBuffers :=
  mkStt "You'" "You'" 0 first_phrase_state 10.

(** [np.interp] of [[0, 1, 0]] from 3 Hz onto 5 Hz. *)
Definition resampled_example : list Q :=
  Eval vm_compute in
    match resample (Mono [0; 1; 0]) 3 5 with Some (Mono ys) => ys | _ => [] end.

Definition cached_analyzer : Analyzer :=
  mkAnalyzer true 5 [("hi, please leave a message"%string, mkEntry true "COMPLETE" 6)] 2.

Lemma simulate_transcription_fragments_witness :
  transcriber_inv transcriber_init /\
  simulate_transcription transcriber_init 10 1 1 = Some (first_phrase_state, Some "You'"%string) /\
  exists p, current_phrase first_phrase_state = Some p /\
    "You'"%string = py_slice p 0 4.
Proof.
  assert (H1 : transcriber_inv transcriber_init) by reflexivity.
  assert (H2 : simulate_transcription transcriber_init 10 1 1
               = Some (first_phrase_state, Some "You'"%string)) by (vm_compute; reflexivity).
  split; [exact H1|]. split; [exact H2|].
  destruct (SttFacts.simulate_transcription_fragments transcriber_init 10 1 1 _ _ H1 H2)
    as (_ & _ & _ & p & Hp & [[Hf _]|[Hf _]]).
  - exists p. split; [exact Hp|exact Hf].
  - vm_compute in Hf. discriminate Hf.
Defined.

Lemma stt_process_buffer_inv_witness :
  stt_inv stt_start /\ stt_process stt_start 1 10 1 = Some (stt_after_first, true) /\
  stt_inv stt_after_first.
Proof.
  assert (H1 : stt_inv stt_start) by (split; [simpl; lia|exists ""%string; reflexivity]).
  assert (H2 : stt_process stt_start 1 10 1 = Some (stt_after_first, true))
    by (vm_compute; reflexivity).
  split; [exact H1|]. split; [exact H2|].
  exact (SttFacts.stt_process_buffer_inv stt_start 1 10 1 _ _ H1 H2).
Defined.


Lemma current_context_suffix_witness :
  stt_inv stt_after_first /\
  get_current_context stt_after_first = "You'"%string /\
  (exists p, transcript stt_after_first = (p ++ get_current_context stt_after_first)%string).
Proof.
  assert (H : stt_inv stt_after_first) by (split; [simpl; lia|exists ""%string; reflexivity]).
  split; [exact H|]. split; [vm_compute; reflexivity|].
  exact (proj1 (SttFacts.current_context_suffix stt_after_first H)).
Defined.

Lemma stt_process_rate_limited_witness :
  (1 # 10) - last_chunk_time (transcriber stt_start) < chunk_interval /\
  stt_process stt_start 1 10 (1 # 10) = Some (mkStt "" "" 0 transcriber_init 10, false).
Proof.
  assert (H : (1 # 10) - last_chunk_time (transcriber stt_start) < chunk_interval)
    by (vm_compute; reflexivity).
  split; [exact H|].
  exact (SttFacts.stt_process_rate_limited stt_start 1 10 (1 # 10) H).
Defined.

Lemma no_client_uses_heuristic_witness :
  client (analyzer_init false) = false /\ cache (analyzer_init false) = [] /\
  is_greeting_complete_llm (fun _ => None) (analyzer_init false) greeting 5 6
  = (analyzer_init false, true).
Proof.
  split; [reflexivity|]. split; [reflexivity|].
  rewrite (AnalyzerFacts.no_client_uses_heuristic (fun _ => None) (analyzer_init false)
             greeting 5 6 eq_refl eq_refl).
  vm_compute. reflexivity.
Defined.

Lemma llm_failure_falls_back_witness :
  client (analyzer_init true) = true /\
  (fun _ : string => @None string) greeting = None /\
  exists t_call,
    analyze_last_sentence (fun _ => None) (analyzer_init true) greeting 5 6
    = (mkAnalyzer true t_call [] 2, (heuristic_analysis greeting, "HEURISTIC_FALLBACK"%string)).
Proof.
  split; [reflexivity|]. split; [reflexivity|].
  apply (AnalyzerFacts.llm_failure_falls_back (fun _ => None) (analyzer_init true) greeting 5 6).
  - reflexivity.
  - intros e He. discriminate He.
  - reflexivity.
Defined.

Lemma llm_verdict_cached_witness :
  analyze_last_sentence (fun _ => Some " complete "%string) (analyzer_init true) greeting 5 6
  = (cached_analyzer, (true, "COMPLETE"%string)) /\
  analyze_last_sentence (fun _ => None) cached_analyzer "  HI, please leave a message " 7 7
  = (cached_analyzer, (true, "COMPLETE"%string)).
Proof.
  assert (H : analyze_last_sentence (fun _ => Some " complete "%string) (analyzer_init true)
                greeting 5 6 = (cached_analyzer, (true, "COMPLETE"%string)))
    by (vm_compute; reflexivity).
  split; [exact H|].
  apply (AnalyzerFacts.llm_verdict_cached (fun _ => Some " complete "%string)
           (analyzer_init true) greeting 5 6 _ _ _ eq_refl).
  - intros e He. discriminate He.
  - exists " complete "%string. reflexivity.
  - exact H.
  - vm_compute. reflexivity.
  - vm_compute. reflexivity.
Defined.

Lemma llm_calls_spaced_witness :
  analyze_last_sentence (fun _ => Some " complete "%string) (analyzer_init true) greeting 5 6
  = (cached_analyzer, (true, "COMPLETE"%string)) /\
  (last_call_time cached_analyzer = last_call_time (analyzer_init true) \/
   (last_call_time (analyzer_init true) + rate_limit (analyzer_init true)
      <= last_call_time cached_analyzer /\ 5 <= last_call_time cached_analyzer)).
Proof.
  assert (H : analyze_last_sentence (fun _ => Some " complete "%string) (analyzer_init true)
                greeting 5 6 = (cached_analyzer, (true, "COMPLETE"%string)))
    by (vm_compute; reflexivity).
  split; [exact H|].
  exact (proj1 (proj2 (proj2 (AnalyzerFacts.llm_calls_spaced _ _ _ _ _ _ _ H)))).
Defined.

Lemma insert_output_in_range_witness :
  insert_at_drop (Mono [2]) (Mono [1]) 8000 0 = Some (Mono [1 # 2; 2 # 2]) /\
  Forall (fun v => Qabs v <= 1) (all_samples (Mono [1 # 2; 2 # 2])).
Proof.
  assert (H : insert_at_drop (Mono [2]) (Mono [1]) 8000 0 = Some (Mono [1 # 2; 2 # 2]))
    by (vm_compute; reflexivity).
  split; [exact H|].
  exact (UtilsFacts.insert_output_in_range _ _ _ _ _ H).
Defined.

Lemma resample_peak_witness :
  resample (Mono [0; 1; 0]) 3 5 = Some (Mono resampled_example) /\
  Forall (fun v => Qabs v <= max_abs (all_samples (Mono [0; 1; 0])))
    (all_samples (Mono resampled_example)).
Proof.
  assert (H : resample (Mono [0; 1; 0]) 3 5 = Some (Mono resampled_example))
    by (vm_compute; reflexivity).
  split; [exact H|].
  exact (UtilsFacts.resample_peak _ _ _ _ H).
Defined.


Lemma short_or_failed_frame_is_silence_witness :
  audio_len (Mono (repeat 0 480)) <> 0%nat /\
  Silence.process_chunk (fun _ _ => None) (silence_init 16000 0) (Mono (repeat 0 480)) 1
  = (silence_update (silence_init 16000 0) false 1,
     silence_duration (silence_update (silence_init 16000 0) false 1)).
Proof.
  assert (H : audio_len (Mono (repeat 0 480)) <> 0%nat) by (vm_compute; discriminate).
  split; [exact H|].
  apply (DetectorFacts.short_or_failed_frame_is_silence (fun _ _ => None)); [exact H|].
  right. reflexivity.
Defined.

Lemma no_speech_no_silence_measure_witness :
  (forall (sr : Z) (fr : list Z), (fun _ _ => Some false) sr fr <> Some true) /\
  speech_active (silence_init 16000 0) = false /\ silence_start (silence_init 16000 0) = None /\
  silence_start (silence_run (fun _ _ => Some false) (silence_init 16000 0)
                   [(Mono (repeat 0 480), 1); (Mono (repeat 0 480), 2);
                    (Mono (repeat 0 480), 3)]) = None.
Proof.
  assert (Hv : forall (sr : Z) (fr : list Z), (fun _ _ => Some false) sr fr <> Some true)
    by (intros; discriminate).
  split; [exact Hv|]. split; [reflexivity|]. split; [reflexivity|].
  exact (proj1 (proj2 (DetectorFacts.no_speech_no_silence_measure (fun _ _ => Some false)
                         (silence_init 16000 0)
                         [(Mono (repeat 0 480), 1); (Mono (repeat 0 480), 2);
                          (Mono (repeat 0 480), 3)] Hv eq_refl eq_refl))).
Defined.


Lemma no_speech_no_silence_trigger_witness :
  (forall (sr : Z) (fr : list Z), vad quiet_env sr fr <> Some true) /\
  process_audio_stream quiet_env tenth_clock beep_init tt "calls/tone.wav"
  = (fst (fst (process_audio_stream quiet_env tenth_clock beep_init tt "calls/tone.wav")), tt,
     inr (Some (inject_Z (Z.of_nat 4000) / inject_Z 20000 * (9 # 10)), Some "end_of_audio"%string)) /\
  ("end_of_audio"%string = "beep_detected"%string \/
   "end_of_audio"%string = "end_of_audio"%string \/
   ("end_of_audio"%string = "end_of_speech"%string /\ t_start tenth_clock + 1 < t_load tenth_clock)).
Proof.
  assert (Hv : forall (sr : Z) (fr : list Z), vad quiet_env sr fr <> Some true)
    by (intros; discriminate).
  assert (H : process_audio_stream quiet_env tenth_clock beep_init tt "calls/tone.wav"
    = (fst (fst (process_audio_stream quiet_env tenth_clock beep_init tt "calls/tone.wav")), tt,
       inr (Some (inject_Z (Z.of_nat 4000) / inject_Z 20000 * (9 # 10)), Some "end_of_audio"%string))) by (vm_compute; reflexivity).
  split; [exact Hv|]. split; [exact H|].
  exact (EngineExtra.no_speech_no_silence_trigger quiet_env tenth_clock Hv _ _ _ _ _ _ _ H).
Defined.

Lemma process_files_entries_witness :
  process_files tone_env (fun _ => tenth_clock) "calls" "output" beep_init tt
    ["bad.wav"; "tone.wav"]%string []
  = inr [("bad.wav"%string, mkResult None None "FAILED" None);
         ("tone.wav"%string, mkResult (Some (2 # 10)) (Some "beep_detected"%string) "SUCCESS"
                               (Some "output/tone_dropped.wav"%string))] /\
  map fst [("bad.wav"%string, mkResult None None "FAILED" None);
           ("tone.wav"%string, mkResult (Some (2 # 10)) (Some "beep_detected"%string) "SUCCESS"
                                 (Some "output/tone_dropped.wav"%string))]
  = ["bad.wav"; "tone.wav"]%string.
Proof.
  assert (H : process_files tone_env (fun _ => tenth_clock) "calls" "output" beep_init tt
    ["bad.wav"; "tone.wav"]%string []
  = inr [("bad.wav"%string, mkResult None None "FAILED" None);
         ("tone.wav"%string, mkResult (Some (2 # 10)) (Some "beep_detected"%string) "SUCCESS"
                               (Some "output/tone_dropped.wav"%string))])
    by (vm_compute; reflexivity).
  split; [exact H|].
  destruct (EngineExtra.process_files_entries tone_env (fun _ => tenth_clock) "calls" "output"
              _ _ _ [] _ H) as (new & Hn & Hf & _).
  simpl in Hn. rewrite <- Hn in Hf. exact Hf.
Defined.

End ExtraInstances.
